(** * SmarParkingApp: the parking-feature pipeline, embedded and verified

    The development follows the repository's TypeScript sources:

    - [JsString]    : the string primitives the filter relies on
                      ([toLowerCase], [includes]);
    - [Json]        : decoded JSON documents and the property accesses the
                      ingestion code performs on them;
    - [App]         : the component of [src/App.tsx] (typed state, the
                      filter [filteredParkingData], marker rendering, the
                      location effect and the loading branch);
    - [Ingest]      : the validating [fetchParkingData] of the App variant
                      that filters the fetched features before storing them;
    - [GeoLocation] : the hook [useGeoLocation] of [src/geoLocation.tsx];
    - [Relay]       : the [/proxy] handler of the relay server;
    - [Geo]         : [calculateDistance];
    - [Interaction], [Raw], [Untyped], [EndToEnd], [LocationRuns] : the
                      handlers and the modal of [src/App.tsx], the filter
                      and the fetch on decoded documents, the client behind
                      the relay, runs of the hook.

    Modelling conventions.  A JavaScript string is the list of its UTF-16
    code units.  [toLowerCase] is the case conversion of ECMAScript: it
    consults the Unicode Character Database, which enters as the class
    [Unicode]; the ASCII part of the database is written out.  Decoded
    JSON numbers are rationals.  The distance formula is read over the
    real numbers: IEEE-754 rounding, NaN and the infinities are outside
    the model.  [undefined] is [None]; an exception is [Throw]. *)

From Stdlib Require Import Bool List String Ascii Arith NArith ZArith QArith Lia.
From Stdlib Require Import DecimalString.
From Stdlib Require Import Reals Lra.
From Stdlib Require Import Permutation.
Import ListNotations.

Set Implicit Arguments.

(* ------------------------------------------------------------------ *)
(** ** Completions: a value, or a thrown exception *)

Inductive completion (A : Type) : Type :=
| Normal (a : A)
| Throw (message : string).

Arguments Normal {A} a.
Arguments Throw {A} message.

Definition bind {A B} (c : completion A) (k : A -> completion B) : completion B :=
  match c with
  | Normal a => k a
  | Throw m => Throw m
  end.

Declare Scope js_scope.
Delimit Scope js_scope with js.
Notation "x <- c ;; k" := (bind c (fun x => k))
  (at level 61, c at next level, right associativity) : js_scope.

(** [Array.prototype.map] with a callback that may throw: the first
    exception aborts the traversal. *)
Fixpoint mapM {A B} (f : A -> completion B) (l : list A) : completion (list B) :=
  match l with
  | [] => Normal []
  | x :: l' =>
      match f x with
      | Throw m => Throw m
      | Normal y =>
          match mapM f l' with
          | Throw m => Throw m
          | Normal ys => Normal (y :: ys)
          end
      end
  end.

(** [Array.prototype.filter] with a callback that may throw. *)
Fixpoint filterM {A} (f : A -> completion bool) (l : list A) : completion (list A) :=
  match l with
  | [] => Normal []
  | x :: l' =>
      match f x with
      | Throw m => Throw m
      | Normal b =>
          match filterM f l' with
          | Throw m => Throw m
          | Normal ys => Normal (if b then x :: ys else ys)
          end
      end
  end.

(** Order-preserving sub-sequence of a list. *)
Inductive sublist {A : Type} : list A -> list A -> Prop :=
| sublist_nil : sublist [] []
| sublist_skip x l1 l2 : sublist l1 l2 -> sublist l1 (x :: l2)
| sublist_keep x l1 l2 : sublist l1 l2 -> sublist (x :: l1) (x :: l2).

(** What [Alert.alert(title, message)] shows. *)
Definition Alert : Type := (string * string)%type.

(* ------------------------------------------------------------------ *)
(** ** String primitives *)

Module JsString.

Local Open Scope N_scope.

(** A JavaScript string: its UTF-16 code units. *)
Definition jsstring : Type := list N.

(** The units of a literal written in this file (characters below
    U+0100, one unit each). *)
Definition units (s : string) : jsstring :=
  List.map N_of_ascii (list_ascii_of_string s).

Definition isLeadingSurrogate (u : N) : bool := (0xD800 <=? u) && (u <=? 0xDBFF).

Definition isTrailingSurrogate (u : N) : bool := (0xDC00 <=? u) && (u <=? 0xDFFF).

(** [StringToCodePoints]: a leading surrogate followed by a trailing one
    is one code point, every other unit is a code point by itself. *)
Fixpoint StringToCodePoints (s : jsstring) : list N :=
  match s with
  | [] => []
  | u :: rest =>
      match rest with
      | v :: rest' =>
          if isLeadingSurrogate u && isTrailingSurrogate v then
            ((u - 0xD800) * 0x400 + (v - 0xDC00) + 0x10000) :: StringToCodePoints rest'
          else u :: StringToCodePoints rest
      | [] => [u]
      end
  end.

(** [UTF16EncodeCodePoint] *)
Definition UTF16EncodeCodePoint (cp : N) : jsstring :=
  if cp <=? 0xFFFF then [cp]
  else [(cp - 0x10000) / 0x400 + 0xD800; (cp - 0x10000) mod 0x400 + 0xDC00].

(** [CodePointsToString] *)
Definition CodePointsToString (cps : list N) : jsstring :=
  List.flat_map UTF16EncodeCodePoint cps.

(** What [String.prototype.toLowerCase] takes from the Unicode Character
    Database: the lower-case mapping of the code points from U+0080 on
    (UnicodeData.txt and the unconditional entries of SpecialCasing.txt; a
    mapping can have several code points), and the condition Final_Sigma
    of a capital sigma, given the code points before it (nearest first)
    and after it. *)
Class Unicode := {
  ucd_lowercase : N -> list N;
  final_sigma : list N -> list N -> bool
}.

Section CaseConversion.

Context {U : Unicode}.

(** The lower-case mapping of one code point out of context: the ASCII
    capitals U+0041..U+005A move to U+0061..U+007A, the other ASCII code
    points are kept, the rest is the database's. *)
Definition Lowercase_Mapping (c : N) : list N :=
  if (65 <=? c) && (c <=? 90) then [c + 32]
  else if c <? 128 then [c]
  else ucd_lowercase c.

(** The default case conversion [toLowercase] of Unicode: every code
    point is replaced by its mapping; a capital sigma (U+03A3) in final
    position becomes the final small sigma (U+03C2).  [before] holds the
    code points already passed, nearest first. *)
Fixpoint toLowercase (before cps : list N) : list N :=
  match cps with
  | [] => []
  | c :: after =>
      (if (c =? 0x3A3) && final_sigma before after then [0x3C2]
       else Lowercase_Mapping c)
      ++ toLowercase (c :: before) after
  end.

(** [String.prototype.toLowerCase] *)
Definition toLowerCase (s : jsstring) : jsstring :=
  CodePointsToString (toLowercase [] (StringToCodePoints s)).

End CaseConversion.

(** [s.startsWith(p)] *)
Fixpoint startsWith (s p : jsstring) {struct p} : bool :=
  match p, s with
  | [], _ => true
  | _ :: _, [] => false
  | a :: p', b :: s' => (a =? b) && startsWith s' p'
  end.

(** [s.includes(p)]: [p] occurs in [s] at some position. *)
Fixpoint includes (s p : jsstring) : bool :=
  startsWith s p ||
  match s with
  | [] => false
  | _ :: s' => includes s' p
  end.

(** *** The specification's vocabulary *)

(** [p] is a substring of [s]. *)
Definition occurs_in (p s : jsstring) : Prop :=
  exists pre post, s = pre ++ p ++ post.

(** Two units are the same letter up to case: the same unit, or an ASCII
    letter and its other case.  This is stated on the units themselves,
    with no reference to [toLowerCase]. *)
Definition same_letter (c d : N) : Prop :=
  c = d \/ (65 <= c <= 90 /\ d = c + 32) \/ (65 <= d <= 90 /\ c = d + 32).

(** Two strings are equal up to letter case. *)
Definition eq_ignoring_case (s t : jsstring) : Prop := Forall2 same_letter s t.

(** [term] is a case-insensitive substring of [s]: some contiguous part
    of [s] equals [term] up to letter case. *)
Definition ci_substring (term s : jsstring) : Prop :=
  exists pre mid post,
    s = pre ++ mid ++ post /\ eq_ignoring_case mid term.

(** The string holds ASCII characters only. *)
Definition is_ascii (s : jsstring) : Prop := Forall (fun u => u < 128) s.

(** What [Lowercase_Mapping] does to an ASCII code point. *)
Definition ascii_lower (c : N) : N :=
  if (65 <=? c) && (c <=? 90) then c + 32 else c.

(** *** A fragment of the database *)

(** The Latin letters A-Z, a-z and the Greek letters U+0391..U+03A9,
    U+03B1..U+03C9; all of them are cased and none is case-ignorable. *)
Definition sample_letter (c : N) : bool :=
  (65 <=? c) && (c <=? 90) || (97 <=? c) && (c <=? 122) ||
  (0x391 <=? c) && (c <=? 0x3A9) && negb (c =? 0x3A2) ||
  (0x3B1 <=? c) && (c <=? 0x3C9).

(** The Greek capitals U+0391..U+03A9 move to U+03B1..U+03C9. *)
Definition sample_lowercase (c : N) : list N :=
  if (0x391 <=? c) && (c <=? 0x3A9) && negb (c =? 0x3A2) then [c + 32] else [c].

(** Final_Sigma on text made of the letters above: a letter stands right
    before the sigma and none right after. *)
Definition sample_final_sigma (before after : list N) : bool :=
  match before with b :: _ => sample_letter b | [] => false end &&
  negb match after with a :: _ => sample_letter a | [] => false end.

(** An instance that agrees with the database on text made of the
    letters above; closed examples are evaluated with it. *)
Definition greek_sample : Unicode :=
  {| ucd_lowercase := sample_lowercase; final_sigma := sample_final_sigma |}.

End JsString.

(* ------------------------------------------------------------------ *)
(** ** Decoded JSON documents *)

Module Json.

Import JsString.
Local Open Scope string_scope.

#[local] Set Warnings "-register-all".

(** The result of [JSON.parse] / [response.json()].  An object is the list
    of its members; a decoded object has no repeated key, [assoc] returns
    the first match.  The keys the code reads are literals of the source. *)
Inductive value : Type :=
| JNull
| JBool (b : bool)
| JNum (q : Q)
| JStr (s : jsstring)
| JArr (elements : list value)
| JObj (members : list (string * value)).

(** The string value of a literal written in this file. *)
Definition JText (s : string) : value := JStr (units s).

(** A JavaScript value reached from a document: [None] is [undefined]. *)
Definition jsval : Type := option value.

Fixpoint assoc (k : string) (members : list (string * value)) : jsval :=
  match members with
  | [] => None
  | (k', v) :: rest => if String.eqb k k' then Some v else assoc k rest
  end.

Definition of_nat (n : nat) : value := JNum (inject_Z (Z.of_nat n)).

(** [ToBoolean]. *)
Definition truthy (v : jsval) : bool :=
  match v with
  | None => false
  | Some JNull => false
  | Some (JBool b) => b
  | Some (JNum q) => negb (Qeq_bool q 0)
  | Some (JStr s) => match s with [] => false | _ :: _ => true end
  | Some (JArr _) => true
  | Some (JObj _) => true
  end.

(** [v.k] for a value [v] that is neither [null] nor [undefined], and a
    key [k] that is a data member: the own member of an object, [length]
    of an array or a string, [undefined] on everything else. *)
Definition own (v : value) (k : string) : jsval :=
  match v with
  | JObj members => assoc k members
  | JArr elements => if String.eqb k "length" then Some (of_nat (List.length elements)) else None
  | JStr s => if String.eqb k "length" then Some (of_nat (List.length s)) else None
  | _ => None
  end.

(** [v[0]] for a value [v] that is neither [null] nor [undefined]. *)
Definition own0 (v : value) : jsval :=
  match v with
  | JObj members => assoc "0" members
  | JArr elements => nth_error elements 0
  | JStr (c :: _) => Some (JStr [c])
  | _ => None
  end.

(** [v.k]: a [TypeError] on [null] and [undefined]. *)
Definition member (v : jsval) (k : string) : completion jsval :=
  match v with
  | None => Throw ("TypeError: Cannot read properties of undefined")
  | Some JNull => Throw ("TypeError: Cannot read properties of null")
  | Some w => Normal (own w k)
  end.

(** [v?.k] *)
Definition optional_member (v : jsval) (k : string) : jsval :=
  match v with
  | None => None
  | Some JNull => None
  | Some w => own w k
  end.

(** [v?.[0]] *)
Definition optional_index0 (v : jsval) : jsval :=
  match v with
  | None => None
  | Some JNull => None
  | Some w => own0 w
  end.

End Json.

(* ------------------------------------------------------------------ *)
(** ** The component of [src/App.tsx] *)

Module App.

Import JsString.
Local Open Scope string_scope.

Definition number : Type := Q.

Record Properties := {
  name : jsstring;
  tyyppi : jsstring;
  status : jsstring;
  autopaikk : number;
  sahkoauto : bool;
  inva : bool
}.

Record Geometry := {
  coordinates : list (list (list number))
}.

Record ParkingFeature := {
  properties : Properties;
  geometry : Geometry
}.

Record LocationState := {
  latitude : number;
  longitude : number;
  latitudeDelta : number;
  longitudeDelta : number
}.

Record Filters := {
  electric : bool;
  disability : bool
}.

(** The [useState] cells of the component, and the alerts shown so far
    (most recent first). *)
Record State := {
  parkingData : list ParkingFeature;
  currentLocation : option LocationState;
  searchTerm : jsstring;
  filters : Filters;
  modalVisible : bool;
  selectedParking : option ParkingFeature;
  alerts : list Alert
}.

Definition initial : State := {|
  parkingData := [];
  currentLocation := None;
  searchTerm := [];
  filters := {| electric := false; disability := false |};
  modalVisible := false;
  selectedParking := None;
  alerts := []
|}.

Definition setParkingData (fs : list ParkingFeature) (st : State) : State :=
  {| parkingData := fs;
     currentLocation := currentLocation st;
     searchTerm := searchTerm st;
     filters := filters st;
     modalVisible := modalVisible st;
     selectedParking := selectedParking st;
     alerts := alerts st |}.

Definition setCurrentLocation (loc : LocationState) (st : State) : State :=
  {| parkingData := parkingData st;
     currentLocation := Some loc;
     searchTerm := searchTerm st;
     filters := filters st;
     modalVisible := modalVisible st;
     selectedParking := selectedParking st;
     alerts := alerts st |}.

Definition alert (title message : string) (st : State) : State :=
  {| parkingData := parkingData st;
     currentLocation := currentLocation st;
     searchTerm := searchTerm st;
     filters := filters st;
     modalVisible := modalVisible st;
     selectedParking := selectedParking st;
     alerts := (title, message) :: alerts st |}.

(** *** Location effect, lines 64-87 *)

(** What [getCurrentPositionAsync] resolves to. *)
Record Coords := {
  coords_latitude : number;
  coords_longitude : number
}.

(** [permission] is the outcome of [requestForegroundPermissionsAsync]
    (its [status], or a rejection); [position] that of
    [getCurrentPositionAsync], awaited only once permission is granted. *)
Definition getLocation (permission : completion string)
           (position : completion Coords) (st : State) : State :=
  match permission with
  | Throw _ => alert "Error" "Failed to get location." st
  | Normal status =>
      if negb (String.eqb status "granted") then
        alert "Permission Denied" "Location access is required to use this app." st
      else
        match position with
        | Throw _ => alert "Error" "Failed to get location." st
        | Normal location =>
            setCurrentLocation
              {| latitude := coords_latitude location;
                 longitude := coords_longitude location;
                 latitudeDelta := 5 # 100;
                 longitudeDelta := 5 # 100 |} st
        end
  end.

(** *** Fetch effect, lines 90-108 *)

(** The decoded body, read at the type the component declares for it:
    [null] or an object whose [features] member may be missing.  What
    the effect does with a body of any other shape is
    [Untyped.fetchParkingData]. *)
Record FeatureCollection := {
  features : option (list ParkingFeature)
}.

(** [response] is the outcome of [fetch] followed by [response.json()]:
    a rejection of either one, or the decoded body. *)
Definition fetchParkingData (response : completion (option FeatureCollection))
           (st : State) : State :=
  match response with
  | Throw _ => alert "Error" "Failed to fetch parking data." st
  | Normal data =>
      match data with
      | Some {| features := Some fs |} => setParkingData fs st
      | _ => alert "Error" "Invalid data format received from the server." st
      end
  end.

(** *** Filter, lines 111-119 *)

Section Filtering.

Context {U : Unicode}.

(** The callback given to [parkingData.filter]. *)
Definition keeps (filters : Filters) (searchTerm : jsstring)
           (record : ParkingFeature) : bool :=
  let p := properties record in
  (negb (electric filters) || sahkoauto p) &&
  (negb (disability filters) || inva p) &&
  (includes (toLowerCase (name p)) (toLowerCase searchTerm) ||
   includes (toLowerCase (tyyppi p)) (toLowerCase searchTerm)).

Definition filteredParkingData (parkingData : list ParkingFeature)
           (filters : Filters) (searchTerm : jsstring) : list ParkingFeature :=
  List.filter (keeps filters searchTerm) parkingData.

(** What the callback computes, in words: each enabled toggle is matched
    by the feature's flag, and the lower-cased term is a substring of the
    lower-cased name or of the lower-cased kind. *)
Definition passes_lowered (filters : Filters) (searchTerm : jsstring)
           (f : ParkingFeature) : Prop :=
  (electric filters = false \/ sahkoauto (properties f) = true) /\
  (disability filters = false \/ inva (properties f) = true) /\
  (occurs_in (toLowerCase searchTerm) (toLowerCase (name (properties f))) \/
   occurs_in (toLowerCase searchTerm) (toLowerCase (tyyppi (properties f)))).

End Filtering.

(** The toggle part of the callback alone. *)
Definition toggles_allow (filters : Filters) (record : ParkingFeature) : bool :=
  let p := properties record in
  (negb (electric filters) || sahkoauto p) &&
  (negb (disability filters) || inva p).

(** The specification's reading of "a feature passes". *)
Definition passes (filters : Filters) (searchTerm : jsstring)
           (f : ParkingFeature) : Prop :=
  (electric filters = false \/ sahkoauto (properties f) = true) /\
  (disability filters = false \/ inva (properties f) = true) /\
  (ci_substring searchTerm (name (properties f)) \/
   ci_substring searchTerm (tyyppi (properties f))).

(** *** Rendering, lines 121-182 *)

(** A map coordinate; a component read past the end of a position is
    [undefined]. *)
Record LatLng := {
  lat : option number;
  lng : option number
}.

(** [([lng, lat]) => ({ latitude: lat, longitude: lng })] *)
Definition toLatLng (position : list number) : LatLng :=
  {| lat := nth_error position 1; lng := nth_error position 0 |}.

(** Lines 142-162: a feature without a first ring renders no polygon. *)
Definition polygon (feature : ParkingFeature) : option (list LatLng) :=
  match nth_error (coordinates (geometry feature)) 0 with
  | None => None
  | Some ring => Some (List.map toLatLng ring)
  end.

(** Lines 165-172: [const [lng, lat] = feature.geometry.coordinates[0][0]].
    Indexing [undefined] and destructuring [undefined] both throw. *)
Definition marker (feature : ParkingFeature) : completion LatLng :=
  match nth_error (coordinates (geometry feature)) 0 with
  | None => Throw "TypeError: Cannot read properties of undefined (reading '0')"
  | Some ring =>
      match nth_error ring 0 with
      | None => Throw "TypeError: undefined is not iterable"
      | Some position => Normal (toLatLng position)
      end
  end.

Inductive View : Type :=
| Loading
| MapScreen (initialRegion : LocationState)
            (polygons : list (option (list LatLng)))
            (markers : list LatLng).

Section Rendering.

Context {U : Unicode}.

Definition render (st : State) : completion View :=
  let filtered := filteredParkingData (parkingData st) (filters st) (searchTerm st) in
  match currentLocation st with
  | None => Normal Loading
  | Some region =>
      (markers <- mapM marker filtered ;;
       Normal (MapScreen region (List.map polygon (parkingData st)) markers))%js
  end.

End Rendering.

(** The specification's "non-empty first ring". *)
Definition first_ring_nonempty (feature : ParkingFeature) : Prop :=
  exists position ring rest,
    coordinates (geometry feature) = (position :: ring) :: rest.

(** *** Sample features *)

(** The feature of the specification's scenarios. *)
Definition lotA : ParkingFeature :=
  {| properties :=
       {| name := units "Lot A"; tyyppi := units "surface"; status := units "open";
          autopaikk := 10; sahkoauto := true; inva := false |};
     geometry :=
       {| coordinates :=
            [[[249 # 10; 601 # 10]; [2491 # 100; 601 # 10]; [2491 # 100; 6011 # 100]]] |} |}.

(** The features of the final-sigma example: one named U+0391 U+03A3
    (capital alpha, capital sigma), one named U+03B1 U+03C3 U+03B1 (small
    alpha, sigma, alpha). *)
Definition alphaSigma : ParkingFeature :=
  {| properties :=
       {| name := [0x391; 0x3A3]%N; tyyppi := units "surface"; status := units "open";
          autopaikk := 10; sahkoauto := false; inva := false |};
     geometry := geometry lotA |}.

Definition alphaSigmaAlpha : ParkingFeature :=
  {| properties :=
       {| name := [0x3B1; 0x3C3; 0x3B1]%N; tyyppi := units "surface"; status := units "open";
          autopaikk := 10; sahkoauto := false; inva := false |};
     geometry := geometry lotA |}.

(** Well-typed features ([coordinates] is a [number[][][]]) without a
    usable first ring. *)
Definition noRing : ParkingFeature :=
  {| properties := properties lotA; geometry := {| coordinates := [] |} |}.

Definition emptyRing : ParkingFeature :=
  {| properties := properties lotA; geometry := {| coordinates := [[]] |} |}.

End App.

(* ------------------------------------------------------------------ *)
(** ** The validating fetch (App variant with [validFeatures]) *)

Module Ingest.

Import Json.
Local Open Scope string_scope.

Section Validation.

(** [v > 0] for an operand [v] that is a string, an array or an object
    goes through [ToPrimitive] and [StringToNumber], which are left
    abstract (they can also throw).  Such an operand is reached only when
    [coordinates[0]] is an object carrying a [length] member of its own. *)
Variable coerced_gt_zero : value -> completion bool.

(** [v > 0] *)
Definition gt_zero (v : jsval) : completion bool :=
  match v with
  | None => Normal false
  | Some JNull => Normal false
  | Some (JBool b) => Normal b
  | Some (JNum q) => Normal (negb (Qle_bool q 0))
  | Some w => coerced_gt_zero w
  end.

(** [feature.geometry?.coordinates?.[0]?.length > 0], the value the
    filter callback returns. *)
Definition hasValidCoordinates (feature : value) : completion bool :=
  (geometry <- member (Some feature) "geometry" ;;
   gt_zero
     (optional_member
        (optional_index0 (optional_member geometry "coordinates"))
        "length"))%js.

(** The cells of the component this effect touches, and the alerts shown
    so far (most recent first). *)
Record State := {
  parkingData : list value;
  alerts : list Alert
}.

Definition initial : State := {| parkingData := []; alerts := [] |}.

(** The body of the [try] block once the response is decoded.  The debug
    log reads [data.type], [data.features?.length] and
    [data.features?.[0]]; the first read throws on [null]. *)
Definition validFeatures (data : value) : completion (list value) :=
  (_ <- member (Some data) "type" ;;
   if truthy (Some data) && truthy (own data "features") then
     match own data "features" with
     | Some (JArr features) => filterM hasValidCoordinates features
     | _ => Throw "TypeError: data.features.filter is not a function"
     end
   else Throw "Invalid data format received")%js.

(** [response] is the outcome of [fetch] followed by [response.json()]:
    a rejection of either one, or the decoded body. *)
Definition fetchParkingData (response : completion value) (st : State) : State :=
  match (data <- response ;; validFeatures data)%js with
  | Normal valid => {| parkingData := valid; alerts := alerts st |}
  | Throw _ =>
      {| parkingData := parkingData st;
         alerts :=
           ("Error",
            "Failed to fetch parking data. Please check your connection and try again.")
           :: alerts st |}
  end.

End Validation.

(** *** The specification's vocabulary *)

(** "[geometry.coordinates[0]] present and non-empty". *)
Definition first_ring_nonempty (feature : value) : Prop :=
  exists members geometry position ring rest,
    feature = JObj members /\
    assoc "geometry" members = Some (JObj geometry) /\
    assoc "coordinates" geometry = Some (JArr (JArr (position :: ring) :: rest)).

(** The shape a GeoJSON document gives a feature: an object whose
    [geometry] is missing, [null], or an object whose [coordinates], when
    present, is an array of numbers and arrays. *)
Definition number_or_array (v : value) : Prop :=
  match v with
  | JNum _ | JArr _ => True
  | _ => False
  end.

Definition geojson_geometry (g : jsval) : Prop :=
  match g with
  | None | Some JNull => True
  | Some (JObj members) =>
      match assoc "coordinates" members with
      | None => True
      | Some (JArr cs) => Forall number_or_array cs
      | Some _ => False
      end
  | Some _ => False
  end.

Definition geojson_feature (feature : value) : Prop :=
  match feature with
  | JObj members => geojson_geometry (assoc "geometry" members)
  | _ => False
  end.

(** [first_ring_nonempty], decided. *)
Definition has_ring (feature : value) : bool :=
  match feature with
  | JObj members =>
      match assoc "geometry" members with
      | Some (JObj geometry) =>
          match assoc "coordinates" geometry with
          | Some (JArr (JArr (_ :: _) :: _)) => true
          | _ => false
          end
      | _ => false
      end
  | _ => false
  end.

(** The [features] member of the response, when it is an array. *)
Definition features_array (data : value) : option (list value) :=
  match own data "features" with
  | Some (JArr features) => Some features
  | _ => None
  end.

(** The response carries a [features] key. *)
Definition has_features_key (data : value) : Prop :=
  exists members v, data = JObj members /\ assoc "features" members = Some v.

(** The whole operation failed: an alert was raised and the held list is
    the one held before. *)
Definition failed (st st' : State) : Prop :=
  parkingData st' = parkingData st /\
  exists a, alerts st' = a :: alerts st.

(** *** Sample responses *)

Definition ring (n : Z) : value :=
  JArr [JArr [JNum (inject_Z n); JNum 60]; JArr [JNum (inject_Z n + 1); JNum 60]].

Definition feature (label : string) (geometry : value) : value :=
  JObj [("type", JText "Feature");
        ("properties", JObj [("name", JText label)]);
        ("geometry", geometry)].

Definition polygonGeometry (n : Z) : value :=
  JObj [("type", JText "Polygon"); ("coordinates", JArr [ring n])].

(** A collection with a sound feature, one with a [null] geometry, one
    with an empty coordinate array, one whose first ring is empty, and a
    repeated sound feature. *)
Definition mixedCollection : value :=
  JObj [("type", JText "FeatureCollection");
        ("features",
         JArr [feature "b" (polygonGeometry 25);
               feature "x" JNull;
               feature "y" (JObj [("type", JText "Polygon"); ("coordinates", JArr [])]);
               feature "z" (JObj [("type", JText "Polygon"); ("coordinates", JArr [JArr []])]);
               feature "a" (polygonGeometry 24);
               feature "b" (polygonGeometry 25)])].

(** A collection whose array holds a sound feature and [null]. *)
Definition nullElementCollection : value :=
  JObj [("type", JText "FeatureCollection");
        ("features", JArr [feature "a" (polygonGeometry 24); JNull])].

(** An envelope that has the [features] key, holding [null]. *)
Definition nullFeatures : value :=
  JObj [("type", JText "FeatureCollection"); ("features", JNull)].

(** What the relay answers when the upstream fails. *)
Definition relayError : value :=
  JObj [("error", JText "HTTP error! status: 503")].

(** An instance of the abstract coercion, for closed examples. *)
Definition coercion_sample : value -> completion bool :=
  fun _ => Normal false.

End Ingest.

(* ------------------------------------------------------------------ *)
(** ** The location hook, [src/geoLocation.tsx] lines 10-66 *)

Module GeoLocation.

Local Open Scope string_scope.

Record Coordinates := {
  lat : Q;
  lng : Q
}.

Record LocationState := {
  loaded : bool;
  coordinates : Coordinates;
  error : option string
}.

(** Helsinki, 60.1699 N 24.9384 E. *)
Definition fallback : Coordinates :=
  {| lat := 601699 # 10000; lng := 249384 # 10000 |}.

Definition initial : LocationState :=
  {| loaded := false; coordinates := fallback; error := None |}.

(** The mount effect, lines 16-45.  [permission] is the outcome of
    [requestForegroundPermissionsAsync], [position] that of
    [getCurrentPositionAsync]. *)
Definition mount (permission : completion string)
           (position : completion Coordinates) : LocationState :=
  match permission with
  | Throw _ =>
      {| loaded := true; coordinates := fallback;
         error := Some "Error getting location" |}
  | Normal status =>
      if negb (String.eqb status "granted") then
        {| loaded := true; coordinates := fallback;
           error := Some "Permission to access location was denied" |}
      else
        match position with
        | Normal current =>
            {| loaded := true; coordinates := current; error := None |}
        | Throw _ =>
            {| loaded := true; coordinates := fallback;
               error := Some "Error getting location" |}
        end
  end.

(** Lines 47-63. *)
Definition refreshLocation (position : completion Coordinates)
           (prev : LocationState) : LocationState :=
  match position with
  | Normal current =>
      {| loaded := true; coordinates := current; error := None |}
  | Throw _ =>
      {| loaded := loaded prev; coordinates := coordinates prev;
         error := Some "Error refreshing location" |}
  end.

(** A run of refresh calls, oldest first. *)
Definition refreshes (positions : list (completion Coordinates))
           (st : LocationState) : LocationState :=
  fold_left (fun s p => refreshLocation p s) positions st.

End GeoLocation.

(* ------------------------------------------------------------------ *)
(** ** The relay, [src/geoLocation.tsx] lines 80-98 *)

Module Relay.

Local Open Scope string_scope.

Section Handler.

(** The JavaScript values [response.json()] resolves to.  The handler
    never looks inside one. *)
Variable document : Type.

(** What [fetch(apiUrl)] resolves to: the status line and the outcome of
    [response.json()] (the decoded body, or the parser's exception). *)
Record UpstreamResponse := {
  status : Z;
  json : completion document
}.

(** [response.ok] *)
Definition ok (response : UpstreamResponse) : bool :=
  ((200 <=? status response) && (status response <=? 299))%Z.

(** The argument of [res.json]: the decoded document, or the object
    [{ error: message }].  The reply body is its JSON serialisation. *)
Inductive Payload : Type :=
| Decoded (data : document)
| ErrorObject (error : string).

Record Reply := {
  reply_status : Z;
  reply_json : Payload
}.

(** [res.status(500).json({ error: error.message })] *)
Definition error_reply (message : string) : Reply :=
  {| reply_status := 500; reply_json := ErrorObject message |}.

Definition decimal (z : Z) : string := NilZero.string_of_int (Z.to_int z).

(** The message of [new Error(`HTTP error! status: ${response.status}`)]. *)
Definition httpError (response : UpstreamResponse) : string :=
  "HTTP error! status: " ++ decimal (status response).

(** The handler of [GET /proxy]; [upstream] is the outcome of
    [fetch(apiUrl)], a rejection being a network failure. *)
Definition proxy (upstream : completion UpstreamResponse) : Reply :=
  match upstream with
  | Throw message => error_reply message
  | Normal response =>
      if negb (ok response) then error_reply (httpError response)
      else
        match json response with
        | Throw message => error_reply message
        | Normal data => {| reply_status := 200; reply_json := Decoded data |}
        end
  end.

(** The server answering a sequence of requests: the handler closes over
    no variable that it writes. *)
Definition serve (upstreams : list (completion UpstreamResponse)) : list Reply :=
  List.map proxy upstreams.

End Handler.

Arguments Decoded {document} data.
Arguments ErrorObject {document} error.

End Relay.

(* ------------------------------------------------------------------ *)
(** ** Distance, [src/App.tsx] lines 51-61 *)

Module Geo.

Local Open Scope R_scope.

(** [Math.atan2(y, x)] *)
Definition atan2 (y x : R) : R :=
  if Rlt_dec 0 x then atan (y / x)
  else if Rlt_dec x 0 then
    if Rle_dec 0 y then atan (y / x) + PI else atan (y / x) - PI
  else
    if Rlt_dec 0 y then PI / 2
    else if Rlt_dec y 0 then - (PI / 2)
    else 0.

(** The value of the constant [distance], in kilometres. *)
Definition distance (lat1 lon1 lat2 lon2 : R) : R :=
  let R := 6371 in
  let dLat := ((lat2 - lat1) * PI) / 180 in
  let dLon := ((lon2 - lon1) * PI) / 180 in
  let a :=
    sin (dLat / 2) * sin (dLat / 2) +
    cos ((lat1 * PI) / 180) * cos ((lat2 * PI) / 180) *
    sin (dLon / 2) * sin (dLon / 2) in
  let c := 2 * atan2 (sqrt a) (sqrt (1 - a)) in
  R * c.

Section Formatting.

(** [Number.prototype.toFixed(2)] *)
Variable toFixed2 : R -> string.

Definition calculateDistance (lat1 lon1 lat2 lon2 : R) : string :=
  (toFixed2 (distance lat1 lon1 lat2 lon2) ++ " km")%string.

End Formatting.

End Geo.

(* ------------------------------------------------------------------ *)
(** ** User interaction in [src/App.tsx]: inputs, marker press, modal *)

Module Interaction.

Import JsString App.
Local Open Scope string_scope.

Definition setSearchTerm (text : jsstring) (st : State) : State :=
  {| parkingData := parkingData st;
     currentLocation := currentLocation st;
     searchTerm := text;
     filters := filters st;
     modalVisible := modalVisible st;
     selectedParking := selectedParking st;
     alerts := alerts st |}.

Definition setFilters (update : Filters -> Filters) (st : State) : State :=
  {| parkingData := parkingData st;
     currentLocation := currentLocation st;
     searchTerm := searchTerm st;
     filters := update (filters st);
     modalVisible := modalVisible st;
     selectedParking := selectedParking st;
     alerts := alerts st |}.

Definition setModalVisible (visible : bool) (st : State) : State :=
  {| parkingData := parkingData st;
     currentLocation := currentLocation st;
     searchTerm := searchTerm st;
     filters := filters st;
     modalVisible := visible;
     selectedParking := selectedParking st;
     alerts := alerts st |}.

Definition setSelectedParking (feature : option ParkingFeature) (st : State) : State :=
  {| parkingData := parkingData st;
     currentLocation := currentLocation st;
     searchTerm := searchTerm st;
     filters := filters st;
     modalVisible := modalVisible st;
     selectedParking := feature;
     alerts := alerts st |}.

(** Lines 197-212: [(value) => setFilters((prev) => ({ ...prev, electric: value }))]
    and its sibling. *)
Definition onElectricChange (value : bool) : State -> State :=
  setFilters (fun prev => {| electric := value; disability := disability prev |}).

Definition onDisabilityChange (value : bool) : State -> State :=
  setFilters (fun prev => {| electric := electric prev; disability := value |}).

(** Lines 173-176, the [onPress] of a marker. *)
Definition onMarkerPress (feature : ParkingFeature) (st : State) : State :=
  setModalVisible true (setSelectedParking (Some feature) st).

(** Lines 222 and 236-240: [onRequestClose] and the Close button. *)
Definition onClose : State -> State := setModalVisible false.

(** Lines 226-235, the body of the modal: the selected feature and the
    arguments handed to [calculateDistance], the last two being
    [coordinates[0][0][1]] and [coordinates[0][0][0]]. *)
Record Detail := {
  shown : ParkingFeature;
  origin : LocationState;
  target : LatLng
}.

Definition detail (region : LocationState) (st : State) : completion (option Detail) :=
  match selectedParking st with
  | None => Normal None
  | Some feature =>
      match nth_error (coordinates (geometry feature)) 0 with
      | None => Throw "TypeError: Cannot read properties of undefined (reading '0')"
      | Some ring =>
          match nth_error ring 0 with
          | None => Throw "TypeError: Cannot read properties of undefined (reading '1')"
          | Some position =>
              Normal (Some {| shown := feature; origin := region;
                              target := toLatLng position |})
          end
      end
  end.

(** The whole component, at the declared type of the stored features
    (where neither the filter callback nor the polygon loop can throw):
    the loading view, or the map followed by the modal. *)
Inductive Screen : Type :=
| LoadingScreen
| MainScreen (map : View) (modal : option Detail) (visible : bool).

Section Mounted.

Context {U : Unicode}.

Definition screen (st : State) : completion Screen :=
  match currentLocation st with
  | None => Normal LoadingScreen
  | Some region =>
      (map <- render st ;;
       modal <- detail region st ;;
       Normal (MainScreen map modal (modalVisible st)))%js
  end.

(** The features whose markers are on the map. *)
Definition visible (st : State) : list ParkingFeature :=
  filteredParkingData (parkingData st) (filters st) (searchTerm st).

(** What can happen to the mounted component. *)
Inductive Event : Type :=
| FetchSettled (response : completion (option FeatureCollection))
| LocationSettled (permission : completion string) (position : completion Coords)
| SearchTyped (text : jsstring)
| ElectricSwitched (value : bool)
| DisabilitySwitched (value : bool)
| MarkerPressed (index : nat)
| ModalClosed.

(** The marker of index [i] is the one of the [i]-th feature passing the
    filter; it can be pressed only while the component renders the map. *)
Definition handle (e : Event) (st : State) : State :=
  match e with
  | FetchSettled response => fetchParkingData response st
  | LocationSettled permission position => getLocation permission position st
  | SearchTyped text => setSearchTerm text st
  | ElectricSwitched value => onElectricChange value st
  | DisabilitySwitched value => onDisabilityChange value st
  | MarkerPressed index =>
      match screen st with
      | Normal (MainScreen _ _ _) =>
          match nth_error (visible st) index with
          | Some feature => onMarkerPress feature st
          | None => st
          end
      | _ => st
      end
  | ModalClosed => onClose st
  end.

Definition run (events : list Event) (st : State) : State :=
  fold_left (fun s e => handle e s) events st.

End Mounted.

(** What the handlers maintain: a selected feature has a first position,
    and the modal is visible only with a selected feature. *)
Definition selection_sound (st : State) : Prop :=
  (forall f, selectedParking st = Some f -> first_ring_nonempty f) /\
  (modalVisible st = true -> exists f, selectedParking st = Some f).

End Interaction.

(* ------------------------------------------------------------------ *)
(** ** The filter and the marker access on decoded documents *)

Module Raw.

Import Json JsString.
Local Open Scope string_scope.

(** [v[0]], not optional. *)
Definition index0 (v : jsval) : completion jsval :=
  match v with
  | None => Throw "TypeError: Cannot read properties of undefined (reading '0')"
  | Some JNull => Throw "TypeError: Cannot read properties of null (reading '0')"
  | Some w => Normal (own0 w)
  end.

(** The [n]-th value a string yields when iterated: the string of its
    [n]-th code point. *)
Definition codePointAt (n : nat) (s : jsstring) : jsval :=
  match nth_error (StringToCodePoints s) n with
  | Some cp => Some (JStr (UTF16EncodeCodePoint cp))
  | None => None
  end.

(** [const [lng, lat] = v]: arrays and strings are iterable, nothing else
    a document holds is. *)
Definition destructure2 (v : jsval) : completion (jsval * jsval) :=
  match v with
  | None => Throw "TypeError: undefined is not iterable"
  | Some (JArr elements) => Normal (nth_error elements 0, nth_error elements 1)
  | Some (JStr s) => Normal (codePointAt 0 s, codePointAt 1 s)
  | Some _ => Throw "TypeError: object is not iterable"
  end.

(** [const [lng, lat] = feature.geometry.coordinates[0][0]], giving
    [(lng, lat)]. *)
Definition marker (feature : value) : completion (jsval * jsval) :=
  (geometry <- member (Some feature) "geometry" ;;
   coordinates <- member geometry "coordinates" ;;
   ring <- index0 coordinates ;;
   position <- index0 ring ;;
   destructure2 position)%js.

Section Filtering.

Context {U : Unicode}.

(** [field.toLowerCase().includes(searchTerm.toLowerCase())]: only a
    string has [toLowerCase]. *)
Definition lowerIncludes (field : jsval) (searchTerm : jsstring) : completion bool :=
  match field with
  | Some (JStr s) => Normal (includes (toLowerCase s) (toLowerCase searchTerm))
  | _ => Throw "TypeError: toLowerCase is not a function"
  end.

(** The filter callback on a stored record, with the truthiness
    [Array.prototype.filter] takes of its result.  [&&] and [||] evaluate
    their right operand only when the left one does not decide. *)
Definition keeps (filters : App.Filters) (searchTerm : jsstring)
           (record : value) : completion bool :=
  (properties <- member (Some record) "properties" ;;
   match properties with
   | None | Some JNull =>
       Throw "TypeError: Cannot destructure property of record.properties"
   | Some p =>
       if negb (negb (App.electric filters) || truthy (own p "sahkoauto")) then
         Normal false
       else if negb (negb (App.disability filters) || truthy (own p "inva")) then
         Normal false
       else
         (byName <- lowerIncludes (own p "name") searchTerm ;;
          if byName then Normal true
          else lowerIncludes (own p "tyyppi") searchTerm)
   end)%js.

End Filtering.

(** The two toggle operands of the callback are truthy. *)
Definition togglesPass (filters : App.Filters) (p : value) : bool :=
  (negb (App.electric filters) || truthy (own p "sahkoauto")) &&
  (negb (App.disability filters) || truthy (own p "inva")).

Definition isString (v : jsval) : bool :=
  match v with
  | Some (JStr _) => true
  | _ => false
  end.

(** *** Typed features as documents *)

(** The document whose shape the interface [ParkingFeature] declares. *)
Definition encodeRing (ring : list (list Q)) : value :=
  JArr (List.map (fun position => JArr (List.map JNum position)) ring).

Definition encode (f : App.ParkingFeature) : value :=
  let p := App.properties f in
  JObj [("properties",
         JObj [("name", JStr (App.name p));
               ("tyyppi", JStr (App.tyyppi p));
               ("status", JStr (App.status p));
               ("autopaikk", JNum (App.autopaikk p));
               ("sahkoauto", JBool (App.sahkoauto p));
               ("inva", JBool (App.inva p))]);
        ("geometry",
         JObj [("coordinates",
                JArr (List.map encodeRing (App.coordinates (App.geometry f))))])].

Definition collection (fs : list App.ParkingFeature) : value :=
  JObj [("type", JText "FeatureCollection");
        ("features", JArr (List.map encode fs))].

Definition encodePair (m : App.LatLng) : jsval * jsval :=
  (option_map JNum (App.lng m), option_map JNum (App.lat m)).

(** The first ring of a typed feature has a first position. *)
Definition hasFirstPosition (f : App.ParkingFeature) : bool :=
  match App.coordinates (App.geometry f) with
  | (_ :: _) :: _ => true
  | _ => false
  end.

(** [feature.geometry?.coordinates?.[0]], the value whose [length] the
    validation reads. *)
Definition firstRing (feature : value) : jsval :=
  optional_index0 (optional_member (own feature "geometry") "coordinates").

(** A record the validation can judge without coercing: it is not [null]
    and its first ring is not an object. *)
Definition judgeable (feature : value) : Prop :=
  feature <> JNull /\ forall members, firstRing feature <> Some (JObj members).

(** A LineString: [coordinates] is an array of positions. *)
Definition lineString : value :=
  JObj [("type", JText "Feature");
        ("properties", JObj [("name", JText "path"); ("tyyppi", JText "route")]);
        ("geometry",
         JObj [("type", JText "LineString");
               ("coordinates",
                JArr [JArr [JNum 24; JNum 60]; JArr [JNum 25; JNum 61]])])].

(** A record whose [name] is [null]. *)
Definition namelessRecord : value :=
  JObj [("properties",
         JObj [("name", JNull); ("tyyppi", JText "surface");
               ("sahkoauto", JBool false); ("inva", JBool true)])].

End Raw.

(* ------------------------------------------------------------------ *)
(** ** The fetch of [src/App.tsx] on decoded documents *)

Module Untyped.

Import Json.
Local Open Scope string_scope.

(** The cell [parkingData], holding whatever was stored in it, and the
    alerts shown so far (most recent first). *)
Record State := {
  parkingData : value;
  alerts : list Alert
}.

Definition initial : State := {| parkingData := JArr []; alerts := [] |}.

Definition alert (title message : string) (st : State) : State :=
  {| parkingData := parkingData st; alerts := (title, message) :: alerts st |}.

(** Lines 90-108: [data.features] is stored when [data && data.features]
    is truthy, whatever it is. *)
Definition fetchParkingData (response : completion value) (st : State) : State :=
  match response with
  | Throw _ => alert "Error" "Failed to fetch parking data." st
  | Normal data =>
      match own data "features" with
      | Some features =>
          if truthy (Some data) && truthy (Some features) then
            {| parkingData := features; alerts := alerts st |}
          else alert "Error" "Invalid data format received from the server." st
      | None => alert "Error" "Invalid data format received from the server." st
      end
  end.

Definition fetches (responses : list (completion value)) (st : State) : State :=
  fold_left (fun s r => fetchParkingData r s) responses st.

(** The value a settled fetch stores, if any: the [features] member of a
    truthy body, when that member is truthy. *)
Definition carried (response : completion value) : option value :=
  match response with
  | Normal data =>
      if truthy (Some data) && truthy (own data "features") then own data "features"
      else None
  | Throw _ => None
  end.

(** The value carried by the last response that carries one. *)
Fixpoint lastCarried (responses : list (completion value)) : option value :=
  match responses with
  | [] => None
  | r :: rest =>
      match lastCarried rest with
      | Some v => Some v
      | None => carried r
      end
  end.

Definition carriesNothing (response : completion value) : bool :=
  match carried response with
  | Some _ => false
  | None => true
  end.

End Untyped.

(* ------------------------------------------------------------------ *)
(** ** The client behind the relay *)

Module EndToEnd.

Section Client.

Context {U : JsString.Unicode}.

Variable coerced_gt_zero : Json.value -> completion bool.

(** The JavaScript values the relay decodes, and what the client decodes
    from the serialisation of one ([JSON.parse] after [JSON.stringify]);
    the two need not agree, numbers pass through text. *)
Variable document : Type.

Variable reparse : document -> Json.value.

(** What [response.json()] gives the client for a reply of the relay. *)
Definition clientView (payload : Relay.Payload document) : Json.value :=
  match payload with
  | Relay.Decoded data => reparse data
  | Relay.ErrorObject message => Json.JObj [("error"%string, Json.JText message)]
  end.

(** The validating client fetching from the relay; the reply status is
    never read. *)
Definition clientFetch (upstream : completion (Relay.UpstreamResponse document))
           (st : Ingest.State) : Ingest.State :=
  Ingest.fetchParkingData coerced_gt_zero
    (Normal (clientView (Relay.reply_json (Relay.proxy upstream)))) st.

(** Fetch, filter and place the markers, on decoded documents. *)
Definition markersAfterFetch (filters : App.Filters) (searchTerm : JsString.jsstring)
           (response : completion Json.value) (st : Ingest.State)
  : completion (list (Json.jsval * Json.jsval)) :=
  (filtered <- filterM (Raw.keeps filters searchTerm)
                 (Ingest.parkingData
                    (Ingest.fetchParkingData coerced_gt_zero response st)) ;;
   mapM Raw.marker filtered)%js.

End Client.

End EndToEnd.

(* ------------------------------------------------------------------ *)
(** ** Runs of the location hook *)

Module LocationRuns.

Import GeoLocation.

(** The position of the last refresh that succeeded, if any. *)
Fixpoint lastFix (positions : list (completion Coordinates)) : option Coordinates :=
  match positions with
  | [] => None
  | p :: rest =>
      match lastFix rest with
      | Some c => Some c
      | None => match p with Normal c => Some c | Throw _ => None end
      end
  end.

(** The error left by the last refresh, [previous] when there was none. *)
Definition lastError (positions : list (completion Coordinates))
           (previous : option string) : option string :=
  match List.last (List.map Some positions) None with
  | None => previous
  | Some (Normal _) => None
  | Some (Throw _) => Some "Error refreshing location"%string
  end.

End LocationRuns.

(* ================================================================== *)
(** * Properties *)

(* ------------------------------------------------------------------ *)
(** ** Lists *)

Lemma sublist_refl {A} (l : list A) : sublist l l.
Proof. induction l; constructor; assumption. Qed.

Lemma sublist_filter {A} (p : A -> bool) (l : list A) :
  sublist (List.filter p l) l.
Proof.
  induction l as [|x l IH]; simpl.
  - constructor.
  - destruct (p x); constructor; exact IH.
Qed.

Lemma sublist_trans {A} (l1 l2 l3 : list A) :
  sublist l1 l2 -> sublist l2 l3 -> sublist l1 l3.
Proof.
  intros H12 H23. revert l1 H12.
  induction H23 as [|x l2 l3 H IH|x l2 l3 H IH]; intros l1 H12.
  - exact H12.
  - constructor. apply IH, H12.
  - inversion H12; subst.
    + constructor. apply IH. assumption.
    + apply sublist_keep. apply IH. assumption.
Qed.

Lemma filter_idempotent {A} (p : A -> bool) (l : list A) :
  List.filter p (List.filter p l) = List.filter p l.
Proof.
  induction l as [|x l IH]; simpl; [reflexivity|].
  destruct (p x) eqn:E; simpl; [rewrite E, IH|]; auto.
Qed.

Lemma filter_all {A} (p : A -> bool) (l : list A) :
  (forall x, In x l -> p x = true) -> List.filter p l = l.
Proof.
  induction l as [|x l IH]; simpl; intros H; [reflexivity|].
  rewrite (H x (or_introl eq_refl)). f_equal. apply IH. auto.
Qed.

(* ------------------------------------------------------------------ *)
(** ** Strings *)

Section StringFacts.

Import JsString.
Local Open Scope N_scope.

Lemma startsWith_spec (s p : jsstring) :
  startsWith s p = true <-> exists post, s = p ++ post.
Proof.
  revert s. induction p as [|a p IH]; intros s; simpl.
  - split; [intros _; exists s; reflexivity | reflexivity].
  - destruct s as [|b s].
    + split; [discriminate | intros [post H]; discriminate].
    + rewrite andb_true_iff, N.eqb_eq, IH. split.
      * intros [-> [post ->]]. exists post. reflexivity.
      * intros [post H]. injection H as -> ->. split; [reflexivity | eauto].
Qed.

Lemma includes_spec (s p : jsstring) :
  includes s p = true <-> occurs_in p s.
Proof.
  unfold occurs_in. induction s as [|c s IH].
  - cbn [includes]. rewrite orb_false_r, startsWith_spec. split.
    + intros [post H]. exists [], post. exact H.
    + intros [[|d pre] [post H]]; [exists post; exact H | discriminate].
  - cbn [includes]. rewrite orb_true_iff, startsWith_spec, IH. split.
    + intros [[post H] | [pre [post H]]].
      * exists [], post. exact H.
      * exists (c :: pre), post. simpl. rewrite H. reflexivity.
    + intros [[|d pre] [post H]].
      * left. exists post. exact H.
      * right. simpl in H. injection H as _ H. eauto.
Qed.

Lemma includes_empty (s : jsstring) : includes s [] = true.
Proof. destruct s; reflexivity. Qed.

Lemma ci_substring_empty (s : jsstring) : ci_substring [] s.
Proof. exists [], [], s. split; [reflexivity | constructor]. Qed.

Lemma same_letter_refl (c : N) : same_letter c c.
Proof. left. reflexivity. Qed.

Lemma eq_ignoring_case_refl (s : jsstring) : eq_ignoring_case s s.
Proof. induction s; constructor; [apply same_letter_refl | assumption]. Qed.

Lemma occurs_in_ci_substring (term s : jsstring) :
  occurs_in term s -> ci_substring term s.
Proof.
  intros (pre & post & ->). exists pre, term, post.
  split; [reflexivity | apply eq_ignoring_case_refl].
Qed.

(** *** ASCII text *)

Lemma ascii_lower_bound (c : N) : c < 128 -> ascii_lower c < 128.
Proof.
  unfold ascii_lower. intros H.
  destruct (65 <=? c) eqn:E1; destruct (c <=? 90) eqn:E2; cbn; try exact H.
  apply N.leb_le in E2. lia.
Qed.

(** On ASCII units, "the same letter up to case" is "the same
    lower-case letter". *)
Lemma same_letter_ascii (c d : N) :
  c < 128 -> d < 128 ->
  (same_letter c d <-> ascii_lower c = ascii_lower d).
Proof.
  intros Hc Hd. unfold same_letter, ascii_lower.
  destruct (65 <=? c) eqn:C1; destruct (c <=? 90) eqn:C2;
    destruct (65 <=? d) eqn:D1; destruct (d <=? 90) eqn:D2; cbn;
    rewrite ?N.leb_le, ?N.leb_gt in *; lia.
Qed.

Lemma eq_ignoring_case_ascii (s t : jsstring) :
  is_ascii s -> is_ascii t ->
  (eq_ignoring_case s t <-> List.map ascii_lower s = List.map ascii_lower t).
Proof.
  unfold eq_ignoring_case, is_ascii. intros Hs. revert t.
  induction Hs as [|c s Hc Hs IH]; intros t Ht.
  - split.
    + intros H. inversion H. reflexivity.
    + destruct t; [constructor | discriminate].
  - destruct Ht as [|d t Hd Ht].
    + split; [intros H; inversion H | discriminate].
    + split.
      * intros H. inversion H as [|? ? ? ? Hcd Hst]; subst. cbn.
        f_equal; [apply same_letter_ascii; assumption | apply IH; assumption].
      * cbn. intros H. injection H as Hcd Hst. constructor.
        -- apply same_letter_ascii; assumption.
        -- apply IH; assumption.
Qed.

Lemma map_split {A B} (f : A -> B) (s : list A) (a b : list B) :
  List.map f s = a ++ b ->
  exists s1 s2, s = s1 ++ s2 /\ List.map f s1 = a /\ List.map f s2 = b.
Proof.
  revert s. induction a as [|x a IH]; intros s H.
  - exists [], s. auto.
  - destruct s as [|c s]; [discriminate|].
    cbn in H. injection H as Hc H.
    destruct (IH _ H) as (s1 & s2 & -> & <- & <-).
    exists (c :: s1), s2. cbn. rewrite Hc. auto.
Qed.

Lemma StringToCodePoints_ascii (s : jsstring) :
  is_ascii s -> StringToCodePoints s = s.
Proof.
  induction 1 as [|u s Hu Hs IH]; [reflexivity|].
  cbn [StringToCodePoints]. destruct s as [|v s']; [reflexivity|].
  assert (E : isLeadingSurrogate u = false).
  { unfold isLeadingSurrogate. apply andb_false_iff. left.
    apply N.leb_gt. lia. }
  rewrite E. cbn [andb]. f_equal. exact IH.
Qed.

Lemma CodePointsToString_ascii (s : list N) :
  is_ascii s -> CodePointsToString s = s.
Proof.
  induction 1 as [|u s Hu Hs IH]; [reflexivity|].
  unfold CodePointsToString in *. cbn [List.flat_map]. rewrite IH.
  unfold UTF16EncodeCodePoint.
  assert (E : (u <=? 0xFFFF) = true) by (apply N.leb_le; lia).
  rewrite E. reflexivity.
Qed.

Lemma is_ascii_lower (s : jsstring) :
  is_ascii s -> is_ascii (List.map ascii_lower s).
Proof.
  induction 1; constructor; [apply ascii_lower_bound|]; assumption.
Qed.

Section WithDatabase.

Context {U : Unicode}.

Lemma toLowerCase_empty : toLowerCase [] = [].
Proof. reflexivity. Qed.

Lemma toLowercase_ascii (s before : list N) :
  is_ascii s -> toLowercase before s = List.map ascii_lower s.
Proof.
  intros Hs. revert before.
  induction Hs as [|c s Hc Hs IH]; intros before; [reflexivity|].
  cbn [toLowercase List.map].
  assert (E : (c =? 0x3A3) = false) by (apply N.eqb_neq; lia).
  rewrite E. cbn [andb]. rewrite IH.
  unfold Lowercase_Mapping, ascii_lower.
  assert (E' : (c <? 128) = true) by (apply N.ltb_lt; exact Hc).
  rewrite E'. destruct ((65 <=? c) && (c <=? 90)); reflexivity.
Qed.

(** On ASCII text [toLowerCase] is the unit-wise fold of the capitals. *)
Lemma toLowerCase_ascii (s : jsstring) :
  is_ascii s -> toLowerCase s = List.map ascii_lower s.
Proof.
  intros Hs. unfold toLowerCase.
  rewrite (StringToCodePoints_ascii Hs), (toLowercase_ascii [] Hs).
  apply CodePointsToString_ascii, is_ascii_lower, Hs.
Qed.

(** On ASCII text the code's text clause is the specification's. *)
Lemma includes_lower_ascii (s term : jsstring) :
  is_ascii s -> is_ascii term ->
  (includes (toLowerCase s) (toLowerCase term) = true <-> ci_substring term s).
Proof.
  intros Hs Ht.
  rewrite (toLowerCase_ascii Hs), (toLowerCase_ascii Ht), includes_spec.
  unfold occurs_in, ci_substring. split.
  - intros (pre & post & H).
    apply map_split in H as (s1 & s23 & -> & _ & H).
    apply map_split in H as (s2 & s3 & -> & H & _).
    exists s1, s2, s3. split; [reflexivity|].
    apply eq_ignoring_case_ascii; trivial.
    unfold is_ascii in Hs. apply Forall_app in Hs as [_ Hs].
    apply Forall_app in Hs as [Hs _]. exact Hs.
  - intros (pre & mid & post & -> & H).
    unfold is_ascii in Hs. apply Forall_app in Hs as [_ Hs].
    apply Forall_app in Hs as [Hs _].
    apply eq_ignoring_case_ascii in H; trivial.
    exists (List.map ascii_lower pre), (List.map ascii_lower post).
    rewrite !List.map_app, H. reflexivity.
Qed.

End WithDatabase.

End StringFacts.

(* ------------------------------------------------------------------ *)
(** ** Filter engine *)

Section FilterEngine.

Import JsString App.

Context {U : Unicode}.

(** The callback decides the lower-cased substring test. *)
Lemma keeps_passes_lowered (fl : Filters) (term : jsstring) (f : ParkingFeature) :
  keeps fl term f = true <-> passes_lowered fl term f.
Proof.
  unfold keeps, passes_lowered.
  rewrite !andb_true_iff, !orb_true_iff, !negb_true_iff, !includes_spec.
  tauto.
Qed.

(** On ASCII text the callback decides the specification's predicate. *)
Lemma keeps_passes (fl : Filters) (term : jsstring) (f : ParkingFeature) :
  is_ascii term ->
  is_ascii (name (properties f)) -> is_ascii (tyyppi (properties f)) ->
  (keeps fl term f = true <-> passes fl term f).
Proof.
  intros Ht Hn Hk. unfold keeps, passes.
  rewrite !andb_true_iff, !orb_true_iff, !negb_true_iff.
  rewrite (includes_lower_ascii Hn Ht), (includes_lower_ascii Hk Ht).
  tauto.
Qed.

Lemma keeps_empty_term (fl : Filters) (f : ParkingFeature) :
  keeps fl [] f = toggles_allow fl f.
Proof.
  unfold keeps, toggles_allow. rewrite toLowerCase_empty.
  rewrite includes_empty. cbn [orb]. rewrite andb_true_r. reflexivity.
Qed.

Example scenario_lot_electric :
  filteredParkingData [lotA] {| electric := true; disability := false |} (units "lot")
  = [lotA].
Proof. reflexivity. Qed.

Example scenario_lot_disability :
  filteredParkingData [lotA] {| electric := false; disability := true |} [] = [].
Proof. reflexivity. Qed.

Example scenario_kind_matches :
  filteredParkingData [lotA] {| electric := false; disability := false |} (units "SURF")
  = [lotA].
Proof. reflexivity. Qed.

Example scenario_no_match :
  filteredParkingData [lotA] {| electric := false; disability := false |} (units "garage")
  = [].
Proof. reflexivity. Qed.

(** C1, amended.  A feature is in the filtered output exactly when it is
    in the input, each enabled toggle is matched by the feature's flag,
    and the lower-cased search term is a substring of the lower-cased name
    or of the lower-cased kind; the empty term is such a substring of
    every string; and when the term, the name and the kind are ASCII text,
    the text clause is exactly: the term is a case-insensitive substring
    of the name or of the kind. *)
Theorem filter_engine_correct :
  (forall (parkingData : list ParkingFeature) (fl : Filters) (term : jsstring)
          (f : ParkingFeature),
      In f (filteredParkingData parkingData fl term) <->
      In f parkingData /\ passes_lowered fl term f) /\
  (forall s : jsstring, occurs_in (toLowerCase []) (toLowerCase s)) /\
  (forall (parkingData : list ParkingFeature) (fl : Filters) (term : jsstring)
          (f : ParkingFeature),
      is_ascii term ->
      is_ascii (name (properties f)) ->
      is_ascii (tyyppi (properties f)) ->
      (In f (filteredParkingData parkingData fl term) <->
       In f parkingData /\ passes fl term f)).
Proof.
  split; [|split].
  - intros parkingData fl term f. unfold filteredParkingData.
    rewrite filter_In, keeps_passes_lowered. reflexivity.
  - intros s. rewrite toLowerCase_empty. exists [], (toLowerCase s). reflexivity.
  - intros parkingData fl term f Ht Hn Hk. unfold filteredParkingData.
    rewrite filter_In, (keeps_passes fl f Ht Hn Hk). reflexivity.
Qed.

(** C5.  The filtered output is an order-preserving sub-sequence of the
    input; with the electric toggle on every output feature has
    [sahkoauto], with the disability toggle on every output feature has
    [inva]; with the empty term only the toggles select, and the default
    criteria return the whole list. *)
Theorem filter_engine_structure :
  forall (parkingData : list ParkingFeature) (fl : Filters) (term : jsstring),
    sublist (filteredParkingData parkingData fl term) parkingData /\
    Forall (fun f => sahkoauto (properties f) = true)
      (filteredParkingData parkingData
         {| electric := true; disability := disability fl |} term) /\
    Forall (fun f => inva (properties f) = true)
      (filteredParkingData parkingData
         {| electric := electric fl; disability := true |} term) /\
    filteredParkingData parkingData fl [] =
      List.filter (toggles_allow fl) parkingData /\
    filteredParkingData parkingData
      {| electric := false; disability := false |} [] = parkingData.
Proof.
  intros parkingData fl term. unfold filteredParkingData.
  split; [apply sublist_filter|].
  split.
  { apply Forall_forall. intros f Hf. apply filter_In in Hf as [_ Hf].
    unfold keeps in Hf. cbn in Hf.
    apply andb_true_iff in Hf as [Hf _].
    apply andb_true_iff in Hf as [Hf _]. exact Hf. }
  split.
  { apply Forall_forall. intros f Hf. apply filter_In in Hf as [_ Hf].
    unfold keeps in Hf. cbn in Hf.
    apply andb_true_iff in Hf as [Hf _].
    apply andb_true_iff in Hf as [_ Hf]. exact Hf. }
  split.
  { apply filter_ext. intros f. apply keeps_empty_term. }
  apply filter_all. intros f _. rewrite keeps_empty_term. reflexivity.
Qed.

(** C10.  Filtering the filtered output again with the same criteria
    gives the same output. *)
Theorem filter_engine_idempotent :
  forall (parkingData : list ParkingFeature) (fl : Filters) (term : jsstring),
    filteredParkingData (filteredParkingData parkingData fl term) fl term =
    filteredParkingData parkingData fl term.
Proof.
  intros. unfold filteredParkingData. apply filter_idempotent.
Qed.

End FilterEngine.

Section FilterEngineExamples.

Import JsString App.

#[local] Existing Instance greek_sample.

Lemma filter_engine_correct_witness :
  passes {| electric := true; disability := false |} (units "LOT") lotA.
Proof.
  refine (proj2 (proj1 (proj2 (proj2 filter_engine_correct) [lotA]
                         {| electric := true; disability := false |}
                         (units "LOT") lotA _ _ _) _)).
  - repeat constructor.
  - repeat constructor.
  - repeat constructor.
  - left. reflexivity.
Defined.

(** C1, as stated, fails.  With the database's entries for the Greek
    letters, the term U+03A3 (capital sigma) is a substring of the name
    U+0391 U+03A3, so a case-insensitive substring of it, and the feature
    is not in the output: in the name the sigma is final and lower-cases
    to U+03C2, in the term it lower-cases to U+03C3. *)
Lemma final_sigma_hides_substring :
  In alphaSigma [alphaSigma] /\
  passes {| electric := false; disability := false |} [0x3A3]%N alphaSigma /\
  ~ In alphaSigma
      (filteredParkingData [alphaSigma]
         {| electric := false; disability := false |} [0x3A3]%N).
Proof.
  split; [left; reflexivity|]. split.
  - split; [left; reflexivity|]. split; [left; reflexivity|].
    left. apply occurs_in_ci_substring. exists [0x391]%N, []. reflexivity.
  - cbn. intros H. exact H.
Qed.

End FilterEngineExamples.

(* ------------------------------------------------------------------ *)
(** ** Marker rendering in [src/App.tsx] *)

Section Markers.

Import App.
Local Open Scope string_scope.

Context {U : JsString.Unicode}.

Lemma mapM_normal {A B} (f : A -> completion B) (l : list A) :
  (exists ys, mapM f l = Normal ys) <-> Forall (fun x => exists y, f x = Normal y) l.
Proof.
  induction l as [|x l IH]; simpl.
  - split; [constructor | eauto].
  - split.
    + intros [ys H]. destruct (f x) as [y|m] eqn:Ex; [|discriminate].
      destruct (mapM f l) as [zs|m]; [|discriminate].
      constructor; [eauto | apply IH; eauto].
    + intros H. inversion H as [|? ? [y Hy] Hl]; subst.
      apply IH in Hl as [zs Hz]. rewrite Hy, Hz. eauto.
Qed.

Lemma marker_defined (f : ParkingFeature) :
  (exists m, marker f = Normal m) <-> first_ring_nonempty f.
Proof.
  unfold marker, first_ring_nonempty.
  destruct (coordinates (geometry f)) as [|[|position ring] rest]; simpl.
  - split; [intros [m H]; discriminate | intros (p & r & t & H); discriminate].
  - split; [intros [m H]; discriminate | intros (p & r & t & H); discriminate].
  - split; [intros _; eauto | intros _; eauto].
Qed.

Example marker_lotA :
  marker lotA = Normal {| lat := Some (601 # 10); lng := Some (249 # 10) |}.
Proof. reflexivity. Qed.

Example marker_noRing : exists m, marker noRing = Throw m.
Proof. eexists. reflexivity. Qed.

Example marker_emptyRing : exists m, marker emptyRing = Throw m.
Proof. eexists. reflexivity. Qed.

(** C4.  [fetchParkingData] stores the fetched array as it is; the marker
    coordinate of a feature is defined exactly when the feature's first
    ring is present and non-empty, so the map renders exactly when every
    feature passing the filter has one; and there is a fetched array, of
    the declared type, after which rendering the map throws. *)
Theorem marker_access_unguarded :
  (forall (fs : list ParkingFeature) (st : State),
      parkingData (fetchParkingData (Normal (Some {| features := Some fs |})) st) = fs) /\
  (forall f : ParkingFeature,
      (exists m, marker f = Normal m) <-> first_ring_nonempty f) /\
  (forall st : State,
      (exists v, render st = Normal v) <->
      currentLocation st = None \/
      Forall first_ring_nonempty
        (filteredParkingData (parkingData st) (filters st) (searchTerm st))) /\
  (exists (fs : list ParkingFeature) (position : Coords) (m : string),
      render
        (getLocation (Normal "granted") (Normal position)
           (fetchParkingData (Normal (Some {| features := Some fs |})) initial))
      = Throw m).
Proof.
  split; [reflexivity|].
  split; [exact marker_defined|].
  split.
  - intros st. unfold render.
    destruct (currentLocation st) as [region|].
    + set (filtered := filteredParkingData _ _ _).
      assert (E : Forall first_ring_nonempty filtered <->
                  exists ys, mapM marker filtered = Normal ys).
      { rewrite mapM_normal. rewrite !Forall_forall.
        split; intros H x Hx; apply marker_defined, H, Hx. }
      split.
      * intros [v H]. right. apply E.
        destruct (mapM marker filtered) as [ys|m]; [eauto | discriminate].
      * intros [H|H]; [discriminate|].
        apply E in H as [ys H]. rewrite H. simpl. eauto.
    + split; [intros _; left; reflexivity | eauto].
  - exists [lotA; noRing],
      {| coords_latitude := 601699 # 10000; coords_longitude := 249384 # 10000 |}.
    eexists. reflexivity.
Qed.

End Markers.

(* ------------------------------------------------------------------ *)
(** ** Location: denial at start-up *)

Section Denial.

Local Open Scope string_scope.

Context {U : JsString.Unicode}.

(** C6, amended.  When the permission is not granted at start-up, the
    hook's state resolves to the fallback coordinate with the error set;
    the component, which keeps its own location cell, raises the
    "Permission Denied" alert, leaves that cell as it was and, the cell
    being empty at start-up, renders the loading view. *)
Theorem location_denied :
  forall (status : string)
         (hookPosition : completion GeoLocation.Coordinates)
         (appPosition : completion App.Coords),
    status <> "granted" ->
    GeoLocation.mount (Normal status) hookPosition =
      {| GeoLocation.loaded := true;
         GeoLocation.coordinates := GeoLocation.fallback;
         GeoLocation.error := Some "Permission to access location was denied" |} /\
    forall st : App.State,
      let st' := App.getLocation (Normal status) appPosition st in
      App.currentLocation st' = App.currentLocation st /\
      App.parkingData st' = App.parkingData st /\
      App.alerts st' =
        ("Permission Denied", "Location access is required to use this app.")
        :: App.alerts st /\
      (App.currentLocation st = None -> App.render st' = Normal App.Loading).
Proof.
  intros status hookPosition appPosition Hstatus.
  apply String.eqb_neq in Hstatus.
  unfold GeoLocation.mount, App.getLocation. rewrite Hstatus. simpl.
  split; [reflexivity|].
  intros st. repeat split.
  intros Hnone. unfold App.render. simpl. rewrite Hnone. reflexivity.
Qed.

End Denial.

Section DenialExamples.

Local Open Scope string_scope.

#[local] Existing Instance JsString.greek_sample.

(** C6, as stated, fails: after a denial the component has no current
    location and shows the loading view, not the map. *)
Lemma denial_shows_no_map :
  ~ (exists region polygons markers,
        App.render
          (App.getLocation (Normal "denied") (Throw "unavailable") App.initial)
        = Normal (App.MapScreen region polygons markers)).
Proof.
  intros (region & polygons & markers & H). discriminate H.
Qed.

Lemma location_denied_witness :
  GeoLocation.mount (Normal "denied") (Throw "unavailable") =
    {| GeoLocation.loaded := true;
       GeoLocation.coordinates := GeoLocation.fallback;
       GeoLocation.error := Some "Permission to access location was denied" |} /\
  App.render (App.getLocation (Normal "denied") (Throw "unavailable") App.initial)
  = Normal App.Loading.
Proof.
  assert (H : "denied" <> "granted") by discriminate.
  destruct (location_denied (status := "denied") (Throw "unavailable")
              (Throw "unavailable") H) as [Hhook Happ].
  split; [exact Hhook|].
  destruct (Happ App.initial) as (_ & _ & _ & Hrender).
  apply Hrender. reflexivity.
Defined.

End DenialExamples.

(* ------------------------------------------------------------------ *)
(** ** Ingestion: the validating fetch *)

Lemma filterM_sublist {A} (f : A -> completion bool) (l out : list A) :
  filterM f l = Normal out -> sublist out l.
Proof.
  revert out. induction l as [|x l IH]; simpl; intros out H.
  - injection H as <-. constructor.
  - destruct (f x) as [b|m]; [|discriminate].
    destruct (filterM f l) as [ys|m]; [|discriminate].
    injection H as <-. destruct b; constructor; apply IH; reflexivity.
Qed.

Lemma filterM_pure {A} (f : A -> completion bool) (p : A -> bool) (l : list A) :
  Forall (fun x => f x = Normal (p x)) l ->
  filterM f l = Normal (List.filter p l).
Proof.
  induction 1 as [|x l Hx Hl IH]; simpl; [reflexivity|].
  rewrite Hx, IH. reflexivity.
Qed.

Section Ingestion.

Import Json Ingest.
Local Open Scope string_scope.

Variable coerced_gt_zero : value -> completion bool.

Abbreviation hasValidCoordinates := (Ingest.hasValidCoordinates coerced_gt_zero).
Abbreviation validFeatures := (Ingest.validFeatures coerced_gt_zero).
Abbreviation fetchParkingData := (Ingest.fetchParkingData coerced_gt_zero).

Lemma has_ring_spec (f : value) :
  has_ring f = true <-> first_ring_nonempty f.
Proof.
  unfold first_ring_nonempty. split.
  - destruct f as [| | | | |members]; simpl; try discriminate.
    destruct (assoc "geometry" members) as [[| | | | |geometry]|] eqn:Eg;
      try discriminate.
    destruct (assoc "coordinates" geometry) as [[| | | |cs|]|] eqn:Ec;
      try discriminate.
    destruct cs as [|[| | | |[|position ring]|] rest]; try discriminate.
    intros _. exists members, geometry, position, ring, rest. auto.
  - intros (members & geometry & position & ring & rest & -> & Eg & Ec).
    simpl. rewrite Eg, Ec. reflexivity.
Qed.

(** On a GeoJSON feature the callback does not throw and decides whether
    the first ring is present and non-empty. *)
Lemma hasValidCoordinates_geojson (f : value) :
  geojson_feature f -> hasValidCoordinates f = Normal (has_ring f).
Proof.
  destruct f as [| | | | |members]; simpl; try contradiction.
  unfold Ingest.hasValidCoordinates. simpl.
  destruct (assoc "geometry" members) as [[| | | | |geometry]|];
    simpl; try contradiction; try reflexivity.
  destruct (assoc "coordinates" geometry) as [[| | | |cs|]|];
    simpl; try contradiction; try reflexivity.
  intros Hcs. destruct cs as [|c rest]; simpl; [reflexivity|].
  inversion Hcs as [|? ? Hc _]; subst.
  destruct c as [| | | |ring|]; simpl in *; try contradiction; try reflexivity.
  destruct ring; reflexivity.
Qed.

Lemma validFeatures_geojson (data : value) (fs : list value) :
  features_array data = Some fs ->
  Forall geojson_feature fs ->
  validFeatures data = Normal (List.filter has_ring fs).
Proof.
  unfold features_array, Ingest.validFeatures. intros Hfs Hshape.
  destruct (own data "features") as [[| | | |l|]|] eqn:E; try discriminate.
  injection Hfs as ->.
  destruct data; simpl in *; try discriminate.
  apply filterM_pure.
  apply Forall_forall. intros f Hf. apply hasValidCoordinates_geojson.
  rewrite Forall_forall in Hshape. auto.
Qed.

Lemma validFeatures_no_array (data : value) :
  features_array data = None -> exists m, validFeatures data = Throw m.
Proof.
  unfold features_array, Ingest.validFeatures. intros H.
  destruct (member (Some data) "type") as [t|m]; cbn [bind]; [|eauto].
  revert H.
  destruct (own data "features") as [[| | | |l|]|]; try discriminate;
    intros _; destruct (truthy (Some data) && _); eauto.
Qed.

Lemma validFeatures_normal (data : value) (out : list value) :
  validFeatures data = Normal out ->
  exists fs, features_array data = Some fs /\
             filterM hasValidCoordinates fs = Normal out.
Proof.
  unfold features_array, Ingest.validFeatures. intros H.
  destruct (member (Some data) "type") as [t|m]; cbn [bind] in H; [|discriminate].
  revert H.
  destruct (own data "features") as [[| | | |l|]|];
    destruct (truthy (Some data) && _); try discriminate; eauto.
Qed.

Lemma fetch_throw (response : completion value) (st : State) :
  (exists m, (data <- response ;; validFeatures data)%js = Throw m) ->
  failed st (fetchParkingData response st).
Proof.
  intros [m H]. unfold Ingest.fetchParkingData. rewrite H.
  split; simpl; eauto.
Qed.

Lemma not_failed_when_silent (st st' : State) :
  alerts st' = alerts st -> ~ failed st st'.
Proof.
  intros E [_ [a H]]. rewrite E in H.
  apply (f_equal (@List.length _)) in H. simpl in H. lia.
Qed.

Lemma validFeatures_array (data : value) (fs : list value) :
  features_array data = Some fs ->
  validFeatures data = filterM hasValidCoordinates fs.
Proof.
  unfold features_array, Ingest.validFeatures. intros Hfs.
  destruct (own data "features") as [[| | | |l|]|] eqn:E; try discriminate.
  injection Hfs as ->.
  destruct data; cbn in *; try discriminate. reflexivity.
Qed.

Lemma filterM_null (fs : list value) :
  In JNull fs -> exists message, filterM hasValidCoordinates fs = Throw message.
Proof.
  induction fs as [|f fs IH]; [contradiction|].
  intros [->|Hin]; [eexists; reflexivity|].
  cbn [filterM]. destruct (hasValidCoordinates f) as [b|m]; [|eauto].
  destruct (IH Hin) as [m ->]. eauto.
Qed.

(** On an array of GeoJSON features the fetch does not abort: no alert
    is raised and the held list becomes the input's features that have a
    present, non-empty [geometry.coordinates[0]], each as often and in the
    order the input has it; every other feature is dropped. *)
Lemma normalizer_on_geojson :
  forall (data : value) (fs : list value) (st : State),
    features_array data = Some fs ->
    Forall geojson_feature fs ->
    let st' := fetchParkingData (Normal data) st in
    alerts st' = alerts st /\
    parkingData st' = List.filter has_ring fs /\
    Forall first_ring_nonempty (parkingData st') /\
    (forall f, In f (parkingData st') <-> In f fs /\ first_ring_nonempty f) /\
    sublist (parkingData st') fs.
Proof.
  intros data fs st Hfs Hshape st'.
  assert (E : st' = {| parkingData := List.filter has_ring fs; alerts := alerts st |}).
  { subst st'. unfold Ingest.fetchParkingData. cbn [bind].
    rewrite (validFeatures_geojson _ Hfs Hshape). reflexivity. }
  rewrite E. cbn [parkingData alerts].
  split; [reflexivity|]. split; [reflexivity|].
  split.
  { apply Forall_forall. intros f Hf. apply filter_In in Hf as [_ Hf].
    apply has_ring_spec, Hf. }
  split.
  { intros f. rewrite filter_In, has_ring_spec. reflexivity. }
  apply sublist_filter.
Qed.

(** C2.  The claim does not hold of the code at a [null] element of the
    array: the callback reads [feature.geometry] with no guard on
    [feature], the exception leaves the [try] block, and the batch is
    given up -- an alert is shown and the held list stays as it was,
    whatever sound features the array holds beside the [null]. *)
Theorem null_element_aborts_batch :
  forall (data : value) (fs : list value) (st : State),
    features_array data = Some fs ->
    In JNull fs ->
    let st' := fetchParkingData (Normal data) st in
    parkingData st' = parkingData st /\
    alerts st' =
      ("Error",
       "Failed to fetch parking data. Please check your connection and try again.")
      :: alerts st.
Proof.
  intros data fs st Hfs Hin st'. subst st'.
  unfold Ingest.fetchParkingData. cbn [bind].
  rewrite (validFeatures_array _ Hfs).
  destruct (filterM_null fs Hin) as [m ->]. split; reflexivity.
Qed.

(** C3, amended.  The operation fails as a whole -- an alert is raised and
    the held list stays as it was -- when the fetch or the decoding
    fails, and when the decoded response has no [features] member that is
    an array (missing, [null], [false], [0], a string, an object); for a
    response whose [features] member is an array of GeoJSON features it
    does not fail.  On every outcome the held list is either unchanged,
    with an alert, or replaced as a whole by a sub-sequence of the
    response's feature array. *)
Theorem ingestion_atomic :
  (forall (m : string) (st : State),
      failed st (fetchParkingData (Throw m) st)) /\
  (forall (data : value) (st : State),
      features_array data = None ->
      failed st (fetchParkingData (Normal data) st)) /\
  (forall (data : value) (fs : list value) (st : State),
      features_array data = Some fs ->
      Forall geojson_feature fs ->
      ~ failed st (fetchParkingData (Normal data) st) /\
      alerts (fetchParkingData (Normal data) st) = alerts st /\
      parkingData (fetchParkingData (Normal data) st) = List.filter has_ring fs) /\
  (forall (response : completion value) (st : State),
      let st' := fetchParkingData response st in
      failed st st' \/
      (alerts st' = alerts st /\
       exists data fs,
         response = Normal data /\
         features_array data = Some fs /\
         sublist (parkingData st') fs)).
Proof.
  split; [|split; [|split]].
  - intros m st. apply fetch_throw. exists m. reflexivity.
  - intros data st H. apply fetch_throw. cbn [bind].
    apply validFeatures_no_array, H.
  - intros data fs st Hfs Hshape.
    assert (E : fetchParkingData (Normal data) st =
                {| parkingData := List.filter has_ring fs; alerts := alerts st |}).
    { unfold Ingest.fetchParkingData. cbn [bind].
      rewrite (validFeatures_geojson _ Hfs Hshape). reflexivity. }
    rewrite E. split; [|split; reflexivity].
    apply not_failed_when_silent. reflexivity.
  - intros response st st'. subst st'.
    destruct response as [data|m].
    + destruct (validFeatures data) as [out|m] eqn:E.
      * right. unfold Ingest.fetchParkingData. cbn [bind]. rewrite E.
        cbn [parkingData alerts]. split; [reflexivity|].
        apply validFeatures_normal in E as (fs & Hfs & Hout).
        exists data, fs. repeat split; trivial.
        eapply filterM_sublist, Hout.
      * left. apply fetch_throw. exists m. exact E.
    + left. apply fetch_throw. exists m. reflexivity.
Qed.

End Ingestion.

Section IngestionExamples.

Import Json Ingest.
Local Open Scope string_scope.

Example mixedCollection_normalized :
  parkingData (Ingest.fetchParkingData coercion_sample (Normal mixedCollection) initial) =
    [feature "b" (polygonGeometry 25);
     feature "a" (polygonGeometry 24);
     feature "b" (polygonGeometry 25)].
Proof. reflexivity. Qed.

Example relayError_fails :
  Ingest.fetchParkingData coercion_sample (Normal relayError) initial =
    {| parkingData := [];
       alerts :=
         [("Error",
           "Failed to fetch parking data. Please check your connection and try again.")] |}.
Proof. reflexivity. Qed.

(** A feature that is [null] is outside GeoJSON; reading its [geometry]
    throws and the whole batch is given up. *)
Example null_feature_aborts :
  Ingest.fetchParkingData coercion_sample
    (Normal (JObj [("features", JArr [feature "a" (polygonGeometry 24); JNull])]))
    initial =
    {| parkingData := [];
       alerts :=
         [("Error",
           "Failed to fetch parking data. Please check your connection and try again.")] |}.
Proof. reflexivity. Qed.

Lemma null_element_aborts_batch_witness :
  has_ring (feature "a" (polygonGeometry 24)) = true /\
  parkingData
    (Ingest.fetchParkingData coercion_sample (Normal nullElementCollection) initial)
  = [].
Proof.
  split; [reflexivity|].
  refine (proj1 (null_element_aborts_batch coercion_sample nullElementCollection
                   initial eq_refl _)).
  right. left. reflexivity.
Defined.

(** C3, as stated, fails: this response has the [features] key, and the
    operation fails as a whole. *)
Lemma failure_with_features_key :
  has_features_key nullFeatures /\
  failed initial
    (Ingest.fetchParkingData coercion_sample (Normal nullFeatures) initial).
Proof.
  split.
  - eexists _, JNull. split; reflexivity.
  - split; [reflexivity|]. eexists. reflexivity.
Qed.

Lemma ingestion_atomic_witness :
  failed initial
    (Ingest.fetchParkingData coercion_sample (Normal relayError) initial) /\
  ~ failed initial
    (Ingest.fetchParkingData coercion_sample (Normal mixedCollection) initial).
Proof.
  destruct (ingestion_atomic coercion_sample) as (_ & Hnone & Harray & _).
  split.
  - apply Hnone. reflexivity.
  - refine (proj1 (Harray mixedCollection _ initial eq_refl _)).
    repeat (constructor; simpl).
Defined.

End IngestionExamples.

(* ------------------------------------------------------------------ *)
(** ** Location: refresh *)

Section Refresh.

Import GeoLocation.
Local Open Scope string_scope.

Lemma failed_refreshes_keep (messages : list string) (st : LocationState) :
  coordinates (refreshes (List.map (@Throw Coordinates) messages) st) = coordinates st.
Proof.
  revert st. induction messages as [|m messages IH]; intros st; simpl.
  - reflexivity.
  - unfold refreshes in IH. rewrite IH. reflexivity.
Qed.

Example refresh_after_fix :
  coordinates
    (refreshLocation (Throw "timeout")
       (refreshLocation (Normal {| lat := 61; lng := 25 |})
          (mount (Normal "denied") (Throw "unavailable")))) =
  {| lat := 61; lng := 25 |}.
Proof. reflexivity. Qed.

(** C8.  A failed refresh keeps the held coordinate (and the [loaded]
    flag) and sets the error; a successful refresh replaces the held
    coordinate by the queried position; after a successful refresh, any
    run of failed refreshes still holds that position. *)
Theorem refresh_frame :
  (forall (prev : LocationState) (m : string),
      let st := refreshLocation (Throw m) prev in
      coordinates st = coordinates prev /\
      loaded st = loaded prev /\
      error st = Some "Error refreshing location") /\
  (forall (prev : LocationState) (current : Coordinates),
      coordinates (refreshLocation (Normal current) prev) = current) /\
  (forall (prev : LocationState) (current : Coordinates) (messages : list string),
      coordinates
        (refreshes (List.map (@Throw Coordinates) messages)
           (refreshLocation (Normal current) prev)) = current).
Proof.
  split; [|split].
  - intros prev m. simpl. auto.
  - reflexivity.
  - intros prev current messages. rewrite failed_refreshes_keep. reflexivity.
Qed.

End Refresh.

(* ------------------------------------------------------------------ *)
(** ** Relay *)

Section RelayContract.

Import Relay.
Local Open Scope string_scope.

Variable document : Type.

Lemma ok_range (response : UpstreamResponse document) :
  ok response = true <-> (200 <= status response <= 299)%Z.
Proof.
  unfold ok. rewrite andb_true_iff, !Z.leb_le. reflexivity.
Qed.

(** C7, amended.  The relay answers 200 with [res.json(data)], the
    serialisation of the document decoded from the upstream body, exactly
    when the upstream status is 2xx (200..299) and the body decodes as
    JSON.  Otherwise it answers 500 with an object holding the failure
    message under [error]: the message of the network error, the text
    "HTTP error! status: " followed by the upstream status, or the message
    of the JSON decoder.  A sequence of requests is answered one by one,
    each reply depending on its own upstream outcome only. *)
Theorem relay_contract :
  (forall (response : UpstreamResponse document) (data : document),
      ok response = true -> json response = Normal data ->
      proxy (Normal response) = {| reply_status := 200; reply_json := Decoded data |}) /\
  (forall message : string,
      proxy (Throw message) = error_reply document message) /\
  (forall response : UpstreamResponse document,
      ok response = false ->
      proxy (Normal response) =
      error_reply document ("HTTP error! status: " ++ decimal (status response))) /\
  (forall (response : UpstreamResponse document) (message : string),
      ok response = true -> json response = Throw message ->
      proxy (Normal response) = error_reply document message) /\
  (forall upstream : completion (UpstreamResponse document),
      (reply_status (proxy upstream) = 200%Z <->
       exists response data,
         upstream = Normal response /\
         (200 <= status response <= 299)%Z /\ json response = Normal data) /\
      (reply_status (proxy upstream) = 200%Z \/ reply_status (proxy upstream) = 500%Z)) /\
  (forall (before after : list (completion (UpstreamResponse document)))
          (upstream : completion (UpstreamResponse document)),
      serve (before ++ upstream :: after)%list =
      (serve before ++ proxy upstream :: serve after)%list).
Proof.
  split; [|split; [|split; [|split; [|split]]]].
  - intros response data Hok Hjson. unfold proxy. rewrite Hok, Hjson. reflexivity.
  - reflexivity.
  - intros response Hok. unfold proxy. rewrite Hok. reflexivity.
  - intros response message Hok Hjson. unfold proxy. rewrite Hok, Hjson. reflexivity.
  - intros [response|m].
    + unfold proxy. destruct (ok response) eqn:Hok; cbn [negb].
      * destruct (json response) as [data|m] eqn:Hjson; cbn.
        -- split; [|left; reflexivity]. split; [|reflexivity].
           intros _. exists response, data. apply ok_range in Hok. auto.
        -- split; [|right; reflexivity]. split; [discriminate|].
           intros (r & d & Hr & _ & Hd). injection Hr as <-.
           rewrite Hjson in Hd. discriminate.
      * cbn. split; [|right; reflexivity]. split; [discriminate|].
        intros (r & d & Hr & Hrange & _). injection Hr as <-.
        apply ok_range in Hrange. rewrite Hrange in Hok. discriminate.
    + cbn. split; [|right; reflexivity]. split; [discriminate|].
      intros (r & d & Hr & _). discriminate.
  - intros before after upstream. unfold serve.
    rewrite map_app. reflexivity.
Qed.

End RelayContract.

Section RelayExamples.

Import Relay.
Local Open Scope string_scope.

Example upstream_503 :
  proxy (Normal {| status := 503; json := Normal Json.JNull |}) =
    {| reply_status := 500;
       reply_json := ErrorObject "HTTP error! status: 503" |}.
Proof. reflexivity. Qed.

Example upstream_204 :
  reply_status (proxy (Normal {| status := 204; json := Normal Json.JNull |})) = 200%Z.
Proof. reflexivity. Qed.

Example upstream_200 :
  proxy (Normal {| status := 200; json := Normal Ingest.mixedCollection |}) =
    {| reply_status := 200; reply_json := Decoded Ingest.mixedCollection |}.
Proof. reflexivity. Qed.

(** C7, as stated, fails: the upstream status is 2xx, the body does not
    decode, and the relay answers 500 with an error object. *)
Lemma success_status_without_json :
  let response : UpstreamResponse Json.value :=
    {| status := 200; json := Throw "Unexpected token < in JSON" |} in
  ok response = true /\
  proxy (Normal response) =
    {| reply_status := 500;
       reply_json := ErrorObject "Unexpected token < in JSON" |}.
Proof. split; reflexivity. Qed.

Lemma relay_contract_witness :
  proxy (Normal {| status := 404; json := Normal Json.JNull |}) =
    {| reply_status := 500; reply_json := ErrorObject "HTTP error! status: 404" |} /\
  proxy (Normal {| status := 200; json := Normal (Json.JArr []) |}) =
    {| reply_status := 200; reply_json := Decoded (Json.JArr []) |}.
Proof.
  destruct (relay_contract Json.value) as (Hok & _ & Hstatus & _).
  split.
  - exact (Hstatus {| status := 404; json := Normal Json.JNull |} eq_refl).
  - exact (Hok {| status := 200; json := Normal (Json.JArr []) |} (Json.JArr [])
             eq_refl eq_refl).
Defined.

End RelayExamples.

(* ------------------------------------------------------------------ *)
(** ** Distance *)

Section Distance.

Import Geo.
Local Open Scope R_scope.

Variable toFixed2 : R -> string.

Lemma atan2_0_1 : atan2 0 1 = 0.
Proof.
  unfold atan2. destruct (Rlt_dec 0 1) as [_|H]; [|exfalso; lra].
  replace (0 / 1) with 0 by field. apply atan_0.
Qed.

Lemma distance_same (x y : R) : distance x y x y = 0.
Proof.
  unfold distance.
  replace ((x - x) * PI / 180 / 2) with 0 by field.
  replace ((y - y) * PI / 180 / 2) with 0 by field.
  rewrite sin_0.
  replace (0 * 0 + cos (x * PI / 180) * cos (x * PI / 180) * 0 * 0) with 0 by ring.
  rewrite Rminus_0_r, sqrt_0, sqrt_1, atan2_0_1. ring.
Qed.

Lemma distance_symmetric (a b c d : R) : distance a b c d = distance c d a b.
Proof.
  unfold distance.
  replace ((a - c) * PI / 180 / 2) with (- ((c - a) * PI / 180 / 2)) by field.
  replace ((b - d) * PI / 180 / 2) with (- ((d - b) * PI / 180 / 2)) by field.
  rewrite !sin_neg.
  set (u := sin ((c - a) * PI / 180 / 2)).
  set (v := sin ((d - b) * PI / 180 / 2)).
  replace (- u * - u + cos (c * PI / 180) * cos (a * PI / 180) * - v * - v)
    with (u * u + cos (a * PI / 180) * cos (c * PI / 180) * v * v) by ring.
  reflexivity.
Qed.

(** C9.  Read over the real numbers, the haversine distance with radius
    6371 of a point to itself is 0 and the distance is symmetric in its
    two points; so is the string [calculateDistance] returns. *)
Theorem distance_algebra :
  (forall x y : R, distance x y x y = 0) /\
  (forall a b c d : R, distance a b c d = distance c d a b) /\
  (forall x y : R,
      calculateDistance toFixed2 x y x y = (toFixed2 0 ++ " km")%string) /\
  (forall a b c d : R,
      calculateDistance toFixed2 a b c d = calculateDistance toFixed2 c d a b).
Proof.
  split; [exact distance_same|].
  split; [exact distance_symmetric|].
  split.
  - intros x y. unfold calculateDistance. rewrite distance_same. reflexivity.
  - intros a b c d. unfold calculateDistance.
    rewrite (distance_symmetric a b c d). reflexivity.
Qed.

End Distance.

(* ================================================================== *)
(** * Further properties of the code *)

(* ------------------------------------------------------------------ *)
(** ** More on the filter *)

Lemma sublist_filter_implies {A} (p q : A -> bool) (l : list A) :
  (forall x, p x = true -> q x = true) ->
  sublist (List.filter p l) (List.filter q l).
Proof.
  intros Hpq. induction l as [|x l IH]; simpl.
  - constructor.
  - destruct (p x) eqn:Ep.
    + rewrite (Hpq x Ep). apply sublist_keep. exact IH.
    + destruct (q x); [apply sublist_skip|]; exact IH.
Qed.

Lemma filter_filter {A} (p q : A -> bool) (l : list A) :
  List.filter q (List.filter p l) = List.filter (fun x => p x && q x) l.
Proof.
  induction l as [|x l IH]; simpl; [reflexivity|].
  destruct (p x) eqn:Ep; simpl; [destruct (q x)|]; rewrite ?IH; reflexivity.
Qed.

Section FilterMore.

Import JsString App Interaction.

Context {U : Unicode}.

Lemma includes_part (s pre term post : jsstring) :
  includes s (pre ++ term ++ post) = true -> includes s term = true.
Proof.
  rewrite !includes_spec. intros (a & b & ->).
  exists (a ++ pre), (post ++ b).
  rewrite <- !app_assoc. reflexivity.
Qed.

Lemma toLowerCase_ascii_around (pre term post : jsstring) :
  is_ascii pre -> is_ascii term -> is_ascii post ->
  toLowerCase (pre ++ term ++ post) =
  toLowerCase pre ++ toLowerCase term ++ toLowerCase post.
Proof.
  intros Hpre Hterm Hpost.
  assert (Hall : is_ascii (pre ++ term ++ post)).
  { unfold is_ascii. rewrite !Forall_app. auto. }
  rewrite (toLowerCase_ascii Hall), (toLowerCase_ascii Hpre),
    (toLowerCase_ascii Hterm), (toLowerCase_ascii Hpost).
  rewrite !List.map_app. reflexivity.
Qed.

Lemma keeps_part (fl : Filters) (pre term post : jsstring) (f : ParkingFeature) :
  is_ascii pre -> is_ascii term -> is_ascii post ->
  keeps fl (pre ++ term ++ post) f = true -> keeps fl term f = true.
Proof.
  intros Hpre Hterm Hpost. unfold keeps.
  rewrite !andb_true_iff, !orb_true_iff.
  rewrite (toLowerCase_ascii_around Hpre Hterm Hpost).
  intros [Htoggles [H|H]]; (split; [exact Htoggles|]);
    [left|right]; eapply includes_part; exact H.
Qed.

Lemma toLowerCase_ignores_ascii_case (term term' : jsstring) :
  is_ascii term -> is_ascii term' -> eq_ignoring_case term term' ->
  toLowerCase term = toLowerCase term'.
Proof.
  intros Ht Ht' H.
  rewrite (toLowerCase_ascii Ht), (toLowerCase_ascii Ht').
  apply eq_ignoring_case_ascii; assumption.
Qed.

(** Switching a toggle on only removes markers: the features shown
    afterwards are a sub-sequence of those shown before.  So does typing
    ASCII characters before or after an ASCII search term. *)
Theorem narrowing_inputs :
  forall (st : State) (before after : jsstring),
    sublist (visible (onElectricChange true st)) (visible st) /\
    sublist (visible (onDisabilityChange true st)) (visible st) /\
    (is_ascii before -> is_ascii (searchTerm st) -> is_ascii after ->
     sublist (visible (setSearchTerm (before ++ searchTerm st ++ after) st))
             (visible st)).
Proof.
  intros st before after. unfold visible, filteredParkingData. cbn.
  split; [|split].
  - apply sublist_filter_implies; intros f.
    unfold keeps. cbn. rewrite !andb_true_iff, !orb_true_iff.
    intros [[H1 H2] H3]. repeat split; auto.
  - apply sublist_filter_implies; intros f.
    unfold keeps. cbn. rewrite !andb_true_iff, !orb_true_iff.
    intros [[H1 H2] H3]. repeat split; auto.
  - intros Hb Ht Ha. apply sublist_filter_implies; intros f.
    apply keeps_part; assumption.
Qed.

(** The search ignores the letter case of an ASCII term: two ASCII terms
    that are equal up to letter case give the same filtered list, whatever
    the names and kinds of the features are. *)
Theorem search_ignores_case :
  forall (parkingData : list ParkingFeature) (fl : Filters) (term term' : jsstring),
    is_ascii term -> is_ascii term' ->
    eq_ignoring_case term term' ->
    filteredParkingData parkingData fl term = filteredParkingData parkingData fl term'.
Proof.
  intros parkingData fl term term' Ht Ht' H. unfold filteredParkingData.
  apply filter_ext. intros f. unfold keeps.
  rewrite (toLowerCase_ignores_ascii_case Ht Ht' H). reflexivity.
Qed.

(** The three criteria act independently: filtering by all of them is
    filtering by the electric toggle alone, then by the disability toggle
    alone, then by the term alone; and two filters applied in a row can be
    swapped. *)
Theorem filter_decomposes :
  forall (parkingData : list ParkingFeature) (fl fl' : Filters) (term term' : jsstring),
    filteredParkingData
      (filteredParkingData
         (filteredParkingData parkingData
            {| electric := electric fl; disability := false |} [])
         {| electric := false; disability := disability fl |} [])
      {| electric := false; disability := false |} term
    = filteredParkingData parkingData fl term /\
    filteredParkingData (filteredParkingData parkingData fl term) fl' term'
    = filteredParkingData (filteredParkingData parkingData fl' term') fl term.
Proof.
  intros parkingData fl fl' term term'. unfold filteredParkingData.
  rewrite !filter_filter. split; apply filter_ext; intros f.
  - rewrite !keeps_empty_term. unfold toggles_allow, keeps. cbn.
    rewrite !andb_true_r. apply andb_assoc.
  - apply andb_comm.
Qed.

End FilterMore.

Section FilterMoreExamples.

Import JsString App Interaction.

#[local] Existing Instance greek_sample.

Lemma narrowing_inputs_witness :
  sublist
    (visible (setSearchTerm (units "lot" ++ units " a")
                (setSearchTerm (units "lot") (setParkingData [lotA; noRing] initial))))
    (visible (setSearchTerm (units "lot") (setParkingData [lotA; noRing] initial))).
Proof.
  refine (proj2 (proj2 (narrowing_inputs
            (setSearchTerm (units "lot") (setParkingData [lotA; noRing] initial))
            [] (units " a"))) _ _ _); repeat constructor.
Defined.

Lemma search_ignores_case_witness :
  filteredParkingData [lotA; alphaSigma] {| electric := true; disability := false |}
    (units "LoT a") =
  filteredParkingData [lotA; alphaSigma] {| electric := true; disability := false |}
    (units "lOt A").
Proof.
  apply search_ignores_case.
  - repeat constructor.
  - repeat constructor.
  - repeat (constructor; [unfold same_letter; cbn; lia|]). constructor.
Defined.

(** Outside ASCII typing can add a marker.  The term U+0391 U+03A3
    lower-cases to U+03B1 U+03C2 (final sigma) and does not find the
    feature named U+03B1 U+03C3 U+03B1; typing U+0391 after it makes the
    sigma medial, and the feature is found. *)
Example typing_can_add_a_marker :
  filteredParkingData [alphaSigmaAlpha] {| electric := false; disability := false |}
    [0x391; 0x3A3]%N = [] /\
  filteredParkingData [alphaSigmaAlpha] {| electric := false; disability := false |}
    ([0x391; 0x3A3] ++ [0x391])%N = [alphaSigmaAlpha].
Proof. split; reflexivity. Qed.

End FilterMoreExamples.

(* ------------------------------------------------------------------ *)
(** ** The two start-up effects of [src/App.tsx] *)

Section Effects.

Import App.
Local Open Scope string_scope.

(** The fetch and the location query may settle in either order: the
    cells of the component end up the same, and the same alerts are shown,
    possibly in another order. *)
Theorem effects_commute :
  forall (response : completion (option FeatureCollection))
         (permission : completion string) (position : completion Coords)
         (st : State),
    let a := fetchParkingData response (getLocation permission position st) in
    let b := getLocation permission position (fetchParkingData response st) in
    parkingData a = parkingData b /\
    currentLocation a = currentLocation b /\
    searchTerm a = searchTerm b /\
    filters a = filters b /\
    modalVisible a = modalVisible b /\
    selectedParking a = selectedParking b /\
    Permutation (alerts a) (alerts b).
Proof.
  intros response permission position st.
  destruct response as [[[[fs|]]|]|m];
    destruct permission as [status|m'];
    try destruct (String.eqb status "granted") eqn:E;
    try destruct position as [location|m''];
    cbn; try rewrite E; cbn;
    repeat split; try reflexivity; try apply perm_swap.
Qed.

(** The marker of a feature sits on the first vertex of its polygon: the
    marker coordinate is defined exactly when the polygon has a first
    vertex, and is that vertex; placing the marker throws exactly when no
    polygon is drawn or the polygon is empty; and no polygon is drawn
    exactly when the feature has no ring at all. *)
Theorem marker_on_first_vertex :
  forall (f : ParkingFeature),
    (forall m : LatLng,
        marker f = Normal m <-> exists others, polygon f = Some (m :: others)) /\
    ((exists message, marker f = Throw message) <->
     polygon f = None \/ polygon f = Some []) /\
    (polygon f = None <-> coordinates (geometry f) = []).
Proof.
  intros f. unfold marker, polygon.
  destruct (coordinates (geometry f)) as [|[|position ring] rest]; cbn.
  - split; [|split].
    + intros m. split; [discriminate | intros [others H]; discriminate].
    + split; eauto.
    + split; reflexivity.
  - split; [|split].
    + intros m. split; [discriminate | intros [others H]; discriminate].
    + split; eauto.
    + split; discriminate.
  - split; [|split].
    + intros m. split.
      * intros H. injection H as <-. eauto.
      * intros [others H]. injection H as <- _. reflexivity.
    + split; [intros [message H]; discriminate | intros [H|H]; discriminate].
    + split; discriminate.
Qed.

End Effects.

Section UntypedFetch.

Import Json Untyped.
Local Open Scope string_scope.

Lemma untyped_fetch_step (r : completion value) (st : State) :
  parkingData (fetchParkingData r st) =
    match carried r with Some v => v | None => parkingData st end /\
  List.length (alerts (fetchParkingData r st)) =
    (List.length (alerts st) + if carriesNothing r then 1 else 0)%nat.
Proof.
  unfold fetchParkingData, carriesNothing, carried.
  destruct r as [data|m]; [|cbn; split; [reflexivity | lia]].
  destruct (own data "features") as [v|].
  - destruct (truthy (Some data) && truthy (Some v)); cbn; split; trivial; lia.
  - rewrite andb_false_r. cbn. split; [reflexivity | lia].
Qed.

Example non_array_is_stored :
  fetchParkingData (Normal (JObj [("features", JText "abc")])) initial =
    {| parkingData := JText "abc"; alerts := [] |}.
Proof. reflexivity. Qed.

Example empty_array_is_stored :
  fetchParkingData (Normal (JObj [("features", JArr [])]))
    {| parkingData := JArr [JNull]; alerts := [] |} =
    {| parkingData := JArr []; alerts := [] |}.
Proof. reflexivity. Qed.

(** After any sequence of settled fetches the cell holds the [features]
    member of the last response that carried one -- a truthy member of a
    truthy body, array or not -- and what it held before when none did,
    never a merge; each response that carried none has shown one alert. *)
Theorem fetches_keep_last :
  forall (responses : list (completion value)) (st : State),
    parkingData (fetches responses st) =
      match lastCarried responses with
      | Some v => v
      | None => parkingData st
      end /\
    List.length (alerts (fetches responses st)) =
      (List.length (alerts st) +
       List.length (List.filter carriesNothing responses))%nat.
Proof.
  intros responses. induction responses as [|r rest IH]; intros st.
  - cbn. split; [reflexivity | lia].
  - change (fetches (r :: rest) st) with (fetches rest (fetchParkingData r st)).
    destruct (IH (fetchParkingData r st)) as (Hdata & Halerts).
    destruct (untyped_fetch_step r st) as (Hd & Ha).
    rewrite Hdata, Halerts, Hd, Ha. cbn [lastCarried List.filter].
    split.
    + destruct (lastCarried rest); reflexivity.
    + destruct (carriesNothing r); cbn [List.length]; lia.
Qed.

End UntypedFetch.

(* ------------------------------------------------------------------ *)
(** ** Selection and the detail modal *)

Section Selection.

Import App Interaction.
Local Open Scope string_scope.

Context {U : JsString.Unicode}.

Lemma rendered_visible_have_rings (st : State) (map : View) (modal : option Detail)
      (shown : bool) :
  screen st = Normal (MainScreen map modal shown) ->
  Forall first_ring_nonempty (visible st).
Proof.
  unfold screen, render. fold (visible st).
  destruct (currentLocation st) as [region|]; [|discriminate].
  destruct (mapM marker (visible st)) as [markers|m] eqn:E; [|discriminate].
  intros _.
  assert (H : exists ys, mapM marker (visible st) = Normal ys) by eauto.
  apply mapM_normal in H. rewrite Forall_forall in *.
  intros f Hf. apply marker_defined, H, Hf.
Qed.

Lemma same_selection_sound (st st' : State) :
  selectedParking st' = selectedParking st ->
  modalVisible st' = modalVisible st ->
  selection_sound st -> selection_sound st'.
Proof.
  unfold selection_sound. intros -> ->. trivial.
Qed.

Lemma handle_sound (e : Event) (st : State) :
  selection_sound st -> selection_sound (handle e st).
Proof.
  intros [Hsel Hvis]. destruct e as [response|permission position|text|value|value|index|]; cbn.
  - apply same_selection_sound with (st := st); [| |split; assumption];
      destruct response as [[[[fs|]]|]|m]; reflexivity.
  - apply same_selection_sound with (st := st); [| |split; assumption];
      (destruct permission as [status|m]; [|reflexivity]; cbn;
       destruct (negb (String.eqb status "granted")); [reflexivity|];
       destruct position; reflexivity).
  - split; assumption.
  - split; assumption.
  - split; assumption.
  - destruct (screen st) as [[|map modal shown]|m] eqn:Es; try (split; assumption).
    destruct (nth_error (visible st) index) as [f|] eqn:En; [|split; assumption].
    split; cbn.
    + intros g Hg. injection Hg as <-.
      pose proof (rendered_visible_have_rings _ Es) as Hall.
      rewrite Forall_forall in Hall. apply Hall.
      eapply nth_error_In, En.
    + eauto.
  - split; cbn; [assumption | discriminate].
Qed.

Lemma run_sound (events : list Event) (st : State) :
  selection_sound st -> selection_sound (run events st).
Proof.
  revert st. induction events as [|e events IH]; intros st H; [exact H|].
  apply IH, handle_sound, H.
Qed.

Lemma detail_of_sound (st : State) (region : LocationState) :
  selection_sound st -> exists d, detail region st = Normal d.
Proof.
  intros [Hsel _]. unfold detail.
  destruct (selectedParking st) as [f|]; [|eauto].
  destruct (Hsel f eq_refl) as (position & ring & rest & ->). cbn. eauto.
Qed.

(** Whatever happens to the component from its initial state -- fetches
    and location queries settling, typing, switching, pressing markers
    that are on the map, closing the modal -- the body of the detail modal
    evaluates without an exception at the declared type of the features:
    a selected feature has a first position; and the modal is visible only
    with a selected feature. *)
Theorem modal_never_throws :
  forall (events : list Event),
    let st := run events initial in
    (forall region, exists d, detail region st = Normal d) /\
    (forall f, selectedParking st = Some f -> first_ring_nonempty f) /\
    (modalVisible st = true -> exists f, selectedParking st = Some f).
Proof.
  intros events st.
  assert (Hsound : selection_sound st).
  { apply run_sound. split; cbn; [discriminate | discriminate]. }
  split; [|split].
  - intros region. apply detail_of_sound, Hsound.
  - apply Hsound.
  - apply Hsound.
Qed.

End Selection.

Section SelectionExamples.

Import App Interaction.
Local Open Scope string_scope.

#[local] Existing Instance JsString.greek_sample.

Example press_then_close :
  let st := run [FetchSettled (Normal (Some {| features := Some [lotA] |}));
                 LocationSettled (Normal "granted")
                   (Normal {| coords_latitude := 60; coords_longitude := 25 |});
                 MarkerPressed 0; ModalClosed] initial in
  selectedParking st = Some lotA /\ modalVisible st = false.
Proof. split; reflexivity. Qed.

Lemma modal_never_throws_witness :
  let st := run [FetchSettled (Normal (Some {| features := Some [lotA] |}));
                 SearchTyped (JsString.units "lot");
                 ElectricSwitched true;
                 LocationSettled (Normal "granted")
                   (Normal {| coords_latitude := 60; coords_longitude := 25 |});
                 MarkerPressed 0] initial in
  exists f, selectedParking st = Some f.
Proof.
  intros st.
  refine (proj2 (proj2 (modal_never_throws _)) _).
  reflexivity.
Defined.

End SelectionExamples.

(* ------------------------------------------------------------------ *)
(** ** The filter and the markers on decoded documents *)

Section RawDocuments.

Import Json.
Local Open Scope string_scope.

Context {U : JsString.Unicode}.

(** On the document of a typed feature the callback does not throw and
    answers what [App.keeps] answers. *)
Lemma raw_keeps_encode (fl : App.Filters) (term : JsString.jsstring) (f : App.ParkingFeature) :
  Raw.keeps fl term (Raw.encode f) = Normal (App.keeps fl term f).
Proof.
  unfold Raw.keeps, App.keeps, Raw.encode, Raw.lowerIncludes.
  cbn -[JsString.includes JsString.toLowerCase].
  destruct (App.electric fl), (App.sahkoauto (App.properties f)),
    (App.disability fl), (App.inva (App.properties f));
    cbn -[JsString.includes JsString.toLowerCase]; try reflexivity;
    destruct (JsString.includes (JsString.toLowerCase (App.name (App.properties f))) _);
    reflexivity.
Qed.

Lemma raw_marker_encode (f : App.ParkingFeature) :
  Raw.marker (Raw.encode f) =
  bind (App.marker f) (fun m => Normal (Raw.encodePair m)).
Proof.
  unfold Raw.marker, App.marker, Raw.encode. cbn.
  destruct (App.coordinates (App.geometry f)) as [|[|position ring] rest]; cbn;
    try reflexivity.
  destruct position as [|x [|y others]]; reflexivity.
Qed.

Lemma raw_filter_encode (fl : App.Filters) (term : JsString.jsstring) (l : list App.ParkingFeature) :
  filterM (Raw.keeps fl term) (List.map Raw.encode l) =
  Normal (List.map Raw.encode (List.filter (App.keeps fl term) l)).
Proof.
  induction l as [|f l IH]; [reflexivity|].
  cbn [List.map filterM List.filter]. rewrite raw_keeps_encode, IH.
  destruct (App.keeps fl term f); reflexivity.
Qed.

Lemma raw_markers_encode (l : list App.ParkingFeature) :
  mapM Raw.marker (List.map Raw.encode l) =
  bind (mapM App.marker l) (fun ms => Normal (List.map Raw.encodePair ms)).
Proof.
  induction l as [|f l IH]; [reflexivity|].
  cbn [List.map mapM]. rewrite raw_marker_encode, IH.
  destruct (App.marker f) as [m|e]; cbn [bind]; [|reflexivity].
  destruct (mapM App.marker l); reflexivity.
Qed.

Lemma markers_of_positioned (l : list App.ParkingFeature) :
  Forall (fun f => Raw.hasFirstPosition f = true) l ->
  exists ms, mapM App.marker l = Normal ms.
Proof.
  intros H. apply mapM_normal. apply Forall_forall.
  rewrite Forall_forall in H. intros f Hf. specialize (H f Hf).
  apply marker_defined. unfold Raw.hasFirstPosition in H.
  unfold App.first_ring_nonempty.
  destruct (App.coordinates (App.geometry f)) as [|[|position ring] rest];
    try discriminate. eauto.
Qed.

Example lineString_marker_throws :
  Raw.marker Raw.lineString = Throw "TypeError: object is not iterable".
Proof. reflexivity. Qed.

(** The filter callback evaluates lazily.  For a record whose
    [properties] is an object: when a required flag is falsy the record is
    dropped and neither [name] nor [tyyppi] is read; when the toggles
    pass and [name] is a string containing the term the record is kept
    whatever [tyyppi] is; when the toggles pass and [name] is not a
    string, or is a string without the term while [tyyppi] is not a
    string, the callback throws. *)
Theorem filter_callback_lazy :
  forall (fl : App.Filters) (term : JsString.jsstring) (record : value)
         (p : list (string * value)),
    own record "properties" = Some (JObj p) ->
    (Raw.togglesPass fl (JObj p) = false ->
     Raw.keeps fl term record = Normal false) /\
    (Raw.togglesPass fl (JObj p) = true ->
     (forall s, assoc "name" p = Some (JStr s) ->
                JsString.includes (JsString.toLowerCase s)
                                  (JsString.toLowerCase term) = true ->
                Raw.keeps fl term record = Normal true) /\
     (Raw.isString (assoc "name" p) = false ->
      exists message, Raw.keeps fl term record = Throw message) /\
     (forall s, assoc "name" p = Some (JStr s) ->
                JsString.includes (JsString.toLowerCase s)
                                  (JsString.toLowerCase term) = false ->
                Raw.isString (assoc "tyyppi" p) = false ->
                exists message, Raw.keeps fl term record = Throw message)).
Proof.
  intros fl term record p Hp.
  assert (Hm : member (Some record) "properties" = Normal (Some (JObj p))).
  { destruct record; cbn in *; try discriminate; rewrite ?Hp; reflexivity. }
  unfold Raw.keeps. rewrite Hm. cbn [bind]. unfold Raw.togglesPass.
  cbn [own].
  destruct (negb (App.electric fl) || truthy (assoc "sahkoauto" p));
    destruct (negb (App.disability fl) || truthy (assoc "inva" p));
    cbn [negb andb]; (split; [try discriminate; reflexivity|]);
    try discriminate.
  intros _. split; [|split].
  - intros s Hs Hinc. rewrite Hs. cbn. rewrite Hinc. reflexivity.
  - intros Hname. destruct (assoc "name" p) as [[| | | s| |]|];
      try discriminate; cbn; eauto.
  - intros s Hs Hinc Hkind. rewrite Hs. cbn. rewrite Hinc.
    destruct (assoc "tyyppi" p) as [[| | | t| |]|];
      try discriminate; cbn; eauto.
Qed.

End RawDocuments.

(* ------------------------------------------------------------------ *)
(** ** The validating fetch, once more *)

Section ValidationMore.

Import Json Ingest.
Local Open Scope string_scope.

Context {U : JsString.Unicode}.

Variable coerced_gt_zero : value -> completion bool.

Abbreviation hasValidCoordinates := (Ingest.hasValidCoordinates coerced_gt_zero).
Abbreviation validFeatures := (Ingest.validFeatures coerced_gt_zero).
Abbreviation fetchParkingData := (Ingest.fetchParkingData coerced_gt_zero).

Lemma hasValidCoordinates_judgeable (f : value) :
  Raw.judgeable f -> exists b, hasValidCoordinates f = Normal b.
Proof.
  intros [Hnull Hring]. unfold Ingest.hasValidCoordinates.
  assert (Hm : member (Some f) "geometry" = Normal (own f "geometry")).
  { destruct f; try reflexivity. contradiction. }
  rewrite Hm. cbn [bind].
  change (optional_index0 (optional_member (own f "geometry") "coordinates"))
    with (Raw.firstRing f).
  destruct (Raw.firstRing f) as [[| | | |l|members]|] eqn:E; cbn; eauto.
  exfalso. eapply Hring. reflexivity.
Qed.

Lemma filterM_judgeable (fs : list value) :
  Forall Raw.judgeable fs -> exists out, filterM hasValidCoordinates fs = Normal out.
Proof.
  induction 1 as [|f fs Hf _ [out IH]]; [cbn; eauto|].
  cbn [filterM]. destruct (hasValidCoordinates_judgeable Hf) as [b ->].
  rewrite IH. eauto.
Qed.

(** Which records break the batch.  A [null] element of the feature array
    makes the whole fetch fail; when no element is [null] and no first
    ring is an object, the fetch does not fail, however the records are
    otherwise malformed, and stores a sub-sequence of the array. *)
Theorem validation_abort_causes :
  forall (data : value) (fs : list value) (st : State),
    features_array data = Some fs ->
    (In JNull fs -> failed st (fetchParkingData (Normal data) st)) /\
    (Forall Raw.judgeable fs ->
     alerts (fetchParkingData (Normal data) st) = alerts st /\
     sublist (parkingData (fetchParkingData (Normal data) st)) fs).
Proof.
  intros data fs st Hfs. split.
  - intros Hin. apply fetch_throw. cbn [bind].
    rewrite (validFeatures_array coerced_gt_zero _ Hfs). apply filterM_null, Hin.
  - intros Hall. unfold Ingest.fetchParkingData. cbn [bind].
    rewrite (validFeatures_array coerced_gt_zero _ Hfs).
    destruct (filterM_judgeable Hall) as [out Hout]. rewrite Hout.
    cbn [alerts parkingData]. split; [reflexivity|].
    eapply filterM_sublist, Hout.
Qed.

Lemma hasValidCoordinates_encode (f : App.ParkingFeature) :
  hasValidCoordinates (Raw.encode f) = Normal (Raw.hasFirstPosition f).
Proof.
  unfold Ingest.hasValidCoordinates, Raw.encode, Raw.hasFirstPosition. cbn.
  destruct (App.coordinates (App.geometry f)) as [|[|position ring] rest];
    reflexivity.
Qed.

Lemma validation_encode (fs : list App.ParkingFeature) :
  filterM hasValidCoordinates (List.map Raw.encode fs) =
  Normal (List.map Raw.encode (List.filter Raw.hasFirstPosition fs)).
Proof.
  induction fs as [|f fs IH]; [reflexivity|].
  cbn [List.map filterM List.filter]. rewrite hasValidCoordinates_encode, IH.
  destruct (Raw.hasFirstPosition f); reflexivity.
Qed.

(** For a response of the declared type -- a collection of documents of
    [ParkingFeature]s -- the validating fetch stores the features that
    have a first position, and filtering them and placing their markers,
    evaluated on the stored documents, throws nowhere: it yields the
    markers of the typed features, in order. *)
Theorem typed_pipeline_safe :
  forall (fs : list App.ParkingFeature) (fl : App.Filters) (term : JsString.jsstring)
         (st : State),
    let st' := fetchParkingData (Normal (Raw.collection fs)) st in
    alerts st' = alerts st /\
    parkingData st' = List.map Raw.encode (List.filter Raw.hasFirstPosition fs) /\
    exists ms,
      mapM App.marker
        (App.filteredParkingData (List.filter Raw.hasFirstPosition fs) fl term)
      = Normal ms /\
      EndToEnd.markersAfterFetch coerced_gt_zero fl term
        (Normal (Raw.collection fs)) st
      = Normal (List.map Raw.encodePair ms).
Proof.
  intros fs fl term st st'.
  assert (E : st' = {| parkingData :=
                         List.map Raw.encode (List.filter Raw.hasFirstPosition fs);
                       alerts := alerts st |}).
  { subst st'. unfold Ingest.fetchParkingData. cbn [bind].
    rewrite (@validFeatures_array coerced_gt_zero (Raw.collection fs) (List.map Raw.encode fs) eq_refl).
    rewrite validation_encode. reflexivity. }
  split; [rewrite E; reflexivity|]. split; [rewrite E; reflexivity|].
  destruct (@markers_of_positioned
              (App.filteredParkingData (List.filter Raw.hasFirstPosition fs) fl term))
    as [ms Hms].
  { apply Forall_forall. intros f Hf. unfold App.filteredParkingData in Hf.
    apply filter_In in Hf as [Hf _]. apply filter_In in Hf as [_ Hf]. exact Hf. }
  exists ms. split; [exact Hms|].
  unfold EndToEnd.markersAfterFetch. fold st'. rewrite E. cbn [parkingData].
  rewrite raw_filter_encode. cbn [bind].
  rewrite raw_markers_encode. unfold App.filteredParkingData in Hms.
  rewrite Hms. reflexivity.
Qed.

End ValidationMore.

Section MoreExamples.

Import Json.
Local Open Scope string_scope.

#[local] Existing Instance JsString.greek_sample.

Lemma validation_abort_causes_witness :
  Ingest.failed Ingest.initial
    (Ingest.fetchParkingData Ingest.coercion_sample
       (Normal (JObj [("features", JArr [Raw.lineString; JNull])])) Ingest.initial) /\
  Ingest.alerts
    (Ingest.fetchParkingData Ingest.coercion_sample
       (Normal (JObj [("features", JArr [JNum 7; Raw.lineString; JText "x"])]))
       Ingest.initial) = [].
Proof.
  split.
  - refine (proj1 (validation_abort_causes Ingest.coercion_sample
                     (JObj [("features", JArr [Raw.lineString; JNull])])
                     Ingest.initial eq_refl) _).
    right. left. reflexivity.
  - refine (proj1 (proj2 (validation_abort_causes Ingest.coercion_sample
                     (JObj [("features", JArr [JNum 7; Raw.lineString; JText "x"])])
                     Ingest.initial eq_refl) _)).
    repeat constructor; try discriminate; intros members H; discriminate H.
Defined.

Lemma filter_callback_lazy_witness :
  Raw.keeps {| App.electric := true; App.disability := false |} (JsString.units "lot") Raw.namelessRecord
  = Normal false /\
  exists message,
    Raw.keeps {| App.electric := false; App.disability := true |} (JsString.units "lot") Raw.namelessRecord
    = Throw message.
Proof.
  split.
  - refine (proj1 (filter_callback_lazy
                     {| App.electric := true; App.disability := false |} (JsString.units "lot")
                     Raw.namelessRecord eq_refl) eq_refl).
  - refine (proj1 (proj2 (proj2 (filter_callback_lazy
                     {| App.electric := false; App.disability := true |} (JsString.units "lot")
                     Raw.namelessRecord eq_refl) eq_refl)) eq_refl).
Defined.

End MoreExamples.

(* ------------------------------------------------------------------ *)
(** ** The client behind the relay *)

Section ClientBehindRelay.

Import Json.
Local Open Scope string_scope.

Variable coerced_gt_zero : value -> completion bool.

Variable document : Type.

Variable reparse : document -> value.

Lemma error_object_fails (message : string) (st : Ingest.State) :
  Ingest.failed st
    (Ingest.fetchParkingData coerced_gt_zero
       (Normal (EndToEnd.clientView reparse (Relay.ErrorObject message))) st).
Proof.
  apply fetch_throw. cbn [bind]. apply validFeatures_no_array. reflexivity.
Qed.

(** The client never reads the status of the relay's reply, and still:
    whenever the relay answers 500 -- a network failure, a non-2xx
    upstream status, an upstream body that does not decode -- the
    client's fetch fails as a whole: an alert, the held list unchanged.
    The relay answers 200 in the one remaining case, and the client then
    works on what it decodes from the relay's serialisation. *)
Theorem relay_failure_reaches_client :
  forall (upstream : completion (Relay.UpstreamResponse document))
         (st : Ingest.State),
    (Relay.reply_status (Relay.proxy upstream) = 500%Z /\
     Ingest.failed st
       (EndToEnd.clientFetch coerced_gt_zero reparse upstream st)) \/
    (exists response data,
        upstream = Normal response /\
        Relay.ok response = true /\
        Relay.json response = Normal data /\
        Relay.proxy upstream =
          {| Relay.reply_status := 200; Relay.reply_json := Relay.Decoded data |} /\
        EndToEnd.clientFetch coerced_gt_zero reparse upstream st =
        Ingest.fetchParkingData coerced_gt_zero (Normal (reparse data)) st).
Proof.
  intros [response|m] st; unfold EndToEnd.clientFetch.
  - destruct (Relay.ok response) eqn:Eok.
    + destruct (Relay.json response) as [data|m] eqn:Ej.
      * right. exists response, data. unfold Relay.proxy. rewrite Eok, Ej.
        cbn. auto.
      * left. unfold Relay.proxy. rewrite Eok, Ej. cbn [negb].
        split; [reflexivity | apply error_object_fails].
    + left. unfold Relay.proxy. rewrite Eok. cbn [negb].
      split; [reflexivity | apply error_object_fails].
  - left. cbn [Relay.proxy]. split; [reflexivity | apply error_object_fails].
Qed.

End ClientBehindRelay.

(* ------------------------------------------------------------------ *)
(** ** Runs of the location hook *)

Section HookRuns.

Import GeoLocation LocationRuns.
Local Open Scope string_scope.

Lemma last_of_somes {A} (x : A) (l : list A) (d : option A) :
  exists y, List.last (List.map Some (x :: l)) d = Some y.
Proof.
  revert x. induction l as [|z l IH]; intros x; [exists x; reflexivity|].
  destruct (IH z) as [y Hy]. exists y. exact Hy.
Qed.

Lemma lastError_cons (p : completion Coordinates) (rest : list (completion Coordinates))
      (previous : option string) :
  lastError (p :: rest) previous =
  lastError rest (error (refreshLocation p {| loaded := false; coordinates := fallback;
                                              error := previous |})).
Proof.
  unfold lastError. destruct rest as [|q rest]; [destruct p; reflexivity|].
  change (List.last (List.map Some (p :: q :: rest)) None)
    with (List.last (List.map Some (q :: rest)) (@None (completion Coordinates))).
  destruct (last_of_somes q rest None) as [x ->]. reflexivity.
Qed.

Lemma refreshes_run (positions : list (completion Coordinates)) (st : LocationState) :
  coordinates (refreshes positions st) =
    match lastFix positions with Some c => c | None => coordinates st end /\
  error (refreshes positions st) = lastError positions (error st) /\
  (loaded st = true -> loaded (refreshes positions st) = true).
Proof.
  revert st. induction positions as [|p rest IH]; intros st.
  - cbn. auto.
  - change (refreshes (p :: rest) st) with (refreshes rest (refreshLocation p st)).
    destruct (IH (refreshLocation p st)) as (Hc & He & Hl).
    rewrite Hc, He, lastError_cons. cbn [lastFix].
    split; [|split].
    + destruct (lastFix rest); [reflexivity|]. destruct p; reflexivity.
    + destruct p; reflexivity.
    + intros H. apply Hl. destruct p; [reflexivity | exact H].
Qed.

Example refresh_after_denial :
  refreshes [Throw "timeout"; Normal {| lat := 61; lng := 25 |}]
    (mount (Normal "denied") (Throw "unavailable")) =
  {| loaded := true; coordinates := {| lat := 61; lng := 25 |}; error := None |}.
Proof. reflexivity. Qed.

(** After the mount effect and any run of refresh calls the state is
    loaded; it holds the position of the last refresh that succeeded --
    the one the mount effect left when none did -- and its error is the
    one of the last refresh alone: unset after a success (even when the
    permission had been denied at mount), set after a failure. *)
Theorem hook_run :
  forall (permission : completion string)
         (position : completion Coordinates)
         (positions : list (completion Coordinates)),
    let mounted := mount permission position in
    let st := refreshes positions mounted in
    loaded st = true /\
    coordinates st =
      match lastFix positions with Some c => c | None => coordinates mounted end /\
    error st = lastError positions (error mounted).
Proof.
  intros permission position positions mounted st.
  destruct (refreshes_run positions mounted) as (Hc & He & Hl).
  split; [|split; assumption].
  apply Hl. subst mounted. unfold mount.
  destruct permission as [status|m]; [|reflexivity].
  destruct (negb (String.eqb status "granted")); [reflexivity|].
  destruct position; reflexivity.
Qed.

End HookRuns.

(* ------------------------------------------------------------------ *)
